(** * MTP allocation tool: a shallow embedding of [app.py]

    The development follows the Python source function by function:
    [find_cgpa_col] and [allocate_students], together with the small part of
    pandas they call ([pd.to_numeric], [DataFrame.sort_values],
    [DataFrame.iterrows], column assignment, [Series.value_counts]).

    Scope of the model.
    - Column labels are byte strings; [str.lower] is modelled on them, so it
      touches the letters [A]..[Z] only.  (No non-ASCII code point lower-cases
      to one of [c], [g], [p], [a].)
    - A data frame has unique column labels, as every frame produced by
      [pd.read_csv] has; statements that look columns up by label carry this
      as the hypothesis [wf].
    - Cells are modelled as values (text, number, missing).  A column's dtype
      is read off its cells, as [pd.read_csv] infers it: text makes it
      [object], else a missing value or a float makes it [float64], else it
      is [int64].  Which numbers are integers, and the cast to [float64], are
      given with the numeric type (class [Numeric]).
    - NumPy's [argsort] is a parameter of the model, constrained by its
      documented contract only where a statement needs it. *)

From Stdlib Require Import Ascii String QArith.
From stdpp Require Import base list strings numbers sorting.


(** * Part I: the model *)

(** ** Python strings *)

Module Text.

(** [str.lower] on one byte. *)
Definition lower_ascii (a : ascii) : ascii :=
  let k := nat_of_ascii a in
  if ((65 <=? k)%nat && (k <=? 90)%nat)%bool then ascii_of_nat (k + 32) else a.

(** [s.lower()] *)
Fixpoint lower (s : string) : string :=
  match s with
  | EmptyString => EmptyString
  | String a s' => String (lower_ascii a) (lower s')
  end.

(** [s.startswith(p)] *)
Fixpoint startswith (p s : string) : bool :=
  match p, s with
  | EmptyString, _ => true
  | String _ _, EmptyString => false
  | String a p', String b s' => bool_decide (a = b) && startswith p' s'
  end.

(** [p in s] for strings: some suffix of [s] starts with [p]. *)
Fixpoint contains (p s : string) : bool :=
  startswith p s ||
  match s with
  | EmptyString => false
  | String _ s' => contains p s'
  end.

(** The relation [contains] decides. *)
Definition substring_of (p s : string) : Prop :=
  ∃ pre post : string, s = pre +:+ p +:+ post.

End Text.

(** ** [find_cgpa_col] *)

(** The loop [for i, c in enumerate(cols)], entered at index [i]. *)
Fixpoint find_cgpa_col_from (i : nat) (cols : list string) : option nat :=
  match cols with
  | [] => None
  | c :: cols' =>
      if Text.contains "cgpa" (Text.lower c) then Some i
      else find_cgpa_col_from (S i) cols'
  end.

(** [find_cgpa_col(cols)]; [None] is Python's [None]. *)
Definition find_cgpa_col (cols : list string) : option nat :=
  find_cgpa_col_from 0 cols.

(** A column label names a grade column. *)
Definition is_cgpa_name (c : string) : Prop :=
  Text.substring_of "cgpa" (Text.lower c).

(** ** Exceptions and the two effect layers *)

(** The exception classes the modelled statements can raise.  [ValueError]
    is the spec's kind InvalidInput. *)
Inductive exn :=
| ValueError (msg : string)
| KeyError (label : string)
| IndexError
| TypeError.

(** Outcome of a computation that returns or raises. *)
Inductive result (A : Type) :=
| Ok (a : A)
| Raise (e : exn).
Arguments Ok {A} a.
Arguments Raise {A} e.

#[global] Instance result_ret : MRet result := λ A a, Ok a.
#[global] Instance result_bind : MBind result := λ A B f m,
  match m with
  | Ok a => f a
  | Raise e => Raise e
  end.

(** [xs[i]] on a Python list, [i] non-negative. *)
Definition py_index {A} (xs : list A) (i : nat) : result A :=
  match xs !! i with
  | Some x => Ok x
  | None => Raise IndexError
  end.

(** ** Cells and data frames *)

(** A cell holds text, a present number, or the missing marker NaN.  [num]
    is the type of the numbers, [int64] and [float64] alike. *)
Inductive cell (num : Type) :=
| CStr (s : string)
| CNum (x : num)
| CNaN.
Arguments CStr {num} s.
Arguments CNum {num} x.
Arguments CNaN {num}.

#[global] Instance cell_eq_dec {num} `{!EqDecision num} : EqDecision (cell num).
Proof. solve_decision. Defined.

#[global] Instance cell_inhabited {num} : Inhabited (cell num) := populate CNaN.

(** A frame: the column labels and the rows in index order.  Row labels are
    not modelled: the code only uses them after [reset_index(drop=True)],
    where they are the positions. *)
Record DataFrame (num : Type) := {
  columns : list string;
  rows : list (list (cell num));
}.
Arguments columns {num} d.
Arguments rows {num} d.

(** Frames as pandas builds them: unique labels, rectangular data. *)
Definition wf {num} (df : DataFrame num) : Prop :=
  NoDup (columns df) ∧ Forall (λ r, length r = length (columns df)) (rows df).

(** The frame passes both checks of [allocate_students]: its grade column is
    at position [cgpa_idx] and [n > 0] preference columns follow it. *)
Definition accepts {num} (df : DataFrame num) (cgpa_idx n : nat) : Prop :=
  find_cgpa_col (columns df) = Some cgpa_idx ∧
  n = length (drop (cgpa_idx + 1) (columns df)) ∧
  n ≠ 0.

(** [Index.get_loc(c)]: the position of label [c]; [KeyError] when there
    is none.  Labels being unique ([wf]), the first match is the only one. *)
Definition get_loc (cols : list string) (c : string) : result nat :=
  match list_find (λ x, x = c) cols with
  | Some (j, _) => Ok j
  | None => Raise (KeyError c)
  end.

(** [df[c]] as the list of the column's values.  Rows are as long as the
    header ([wf]), so the position read is in range. *)
Definition getitem {num} (df : DataFrame num) (c : string) : result (list (cell num)) :=
  j ← get_loc (columns df) c;
  Ok ((λ r, r !!! j) <$> rows df).

(** ** Dtypes *)

(** What the model needs of the numeric type to follow NumPy's dtypes: which
    numbers are held as [int64] (the others are [float64]), and the cast of a
    number to [float64], which rounds an integer of more than 53 bits. *)
Class Numeric (num : Type) := {
  is_int64 : num → bool;
  to_float64 : num → num;
}.

Inductive dtype := Int64 | Float64 | Object.

(** The dtype a single value asks for. *)
Definition cell_dtype {num} `{!Numeric num} (c : cell num) : dtype :=
  match c with
  | CStr _ => Object
  | CNum x => if is_int64 x then Int64 else Float64
  | CNaN => Float64
  end.

(** [find_common_type] on two of these dtypes. *)
Definition common_type (a b : dtype) : dtype :=
  match a, b with
  | Object, _ | _, Object => Object
  | Float64, _ | _, Float64 => Float64
  | Int64, Int64 => Int64
  end.

(** The dtype of the array [df.values]: the common type of the columns'
    dtypes, that is, of all the cells. *)
Definition values_dtype {num} `{!Numeric num} (rs : list (list (cell num))) : dtype :=
  foldr common_type Int64 (cell_dtype <$> concat rs).

(** A cell converted to dtype [d].  Only the conversion to [float64] changes a
    value; text is met under [object] only. *)
Definition astype {num} `{!Numeric num} (d : dtype) (c : cell num) : cell num :=
  match c with
  | CNum x =>
      match d with
      | Float64 => CNum (to_float64 x)
      | _ => CNum x
      end
  | _ => c
  end.

(** [df.iterrows()]: the rows of [df.values], each as a Series over the
    column labels.  The cells of a row have one dtype, the common one, so an
    integer cell of a frame that also has a float column (and no text column)
    comes as a float. *)
Definition iterrows {num} `{!Numeric num} (df : DataFrame num) : list (list (cell num)) :=
  let d := values_dtype (rows df) in
  (λ r : list (cell num), astype d <$> r) <$> rows df.

(** [row[c]] for a Series [row] whose index is [cols]. *)
Definition row_getitem {num} (cols : list string) (row : list (cell num)) (c : string) :
    result (cell num) :=
  j ← get_loc cols c;
  match row !! j with
  | Some v => Ok v
  | None => Raise (KeyError c)
  end.

(** The frame after [df[c] = vals]: the column labelled [c] is overwritten
    if there is one, else a new last column is appended. *)
Definition set_column {num} (df : DataFrame num) (c : string) (vals : list (cell num)) :
    DataFrame num :=
  match list_find (λ x, x = c) (columns df) with
  | Some (j, _) =>
      {| columns := columns df;
         rows := zip_with (λ r v, <[j := v]> r) (rows df) vals |}
  | None =>
      {| columns := columns df ++ [c];
         rows := zip_with (λ r v, r ++ [v]) (rows df) vals |}
  end.

(** [df[c] = vals]; pandas refuses a list of the wrong length. *)
Definition setitem {num} (df : DataFrame num) (c : string) (vals : list (cell num)) :
    result (DataFrame num) :=
  if decide (length vals = length (rows df)) then Ok (set_column df c vals)
  else Raise (ValueError "Length of values does not match length of index").

(** [isna] on one cell. *)
Definition isna {num} (c : cell num) : bool :=
  match c with
  | CNaN => true
  | _ => false
  end.

(** The numeric key of a cell of a numeric column; [None] is NaN.  Text has
    no place in such a column: ordering text against numbers raises. *)
Definition cell_key {num} (c : cell num) : result (option num) :=
  match c with
  | CNum x => Ok (Some x)
  | CNaN => Ok None
  | CStr _ => Raise TypeError
  end.

(** ** Sorting *)

(** The type of [ndarray.argsort]: from the keys (and their strict order) to
    the positions in sorted order. *)
Definition argsort_fn : Type := ∀ K : Type, (K → K → bool) → list K → list nat.

(** [a[ix]] for an integer index array [ix].  The index arrays met here are
    permutations of the positions of [a] (or parts of one), so no position
    is out of range. *)
Definition take_idx {A} `{!Inhabited A} (a : list A) (ix : list nat) : list A :=
  (λ i, a !!! i) <$> ix.

(** [a[mask]] for a boolean mask. *)
Fixpoint compress {A} (mask : list bool) (a : list A) : list A :=
  match mask, a with
  | m :: mask', x :: a' => if m then x :: compress mask' a' else compress mask' a'
  | _, _ => []
  end.

(** [isna] on a numeric key. *)
Definition key_isna {K} (x : option K) : bool :=
  match x with
  | None => true
  | Some _ => false
  end.

(** pandas' [nargsort(items, kind, ascending, na_position="last")]: the NaN
    positions are set aside and appended in their original order; for a
    descending sort the remaining keys are reversed, sorted ascending, and
    the outcome reversed again. *)
Definition nargsort (argsort : argsort_fn) {K} (ltb : K → K → bool)
    (ascending : bool) (items : list (option K)) : list nat :=
  let mask := key_isna <$> items in
  let idx := seq 0 (length items) in
  let non_nans := omap id items in
  let non_nan_idx := compress (negb <$> mask) idx in
  let nan_idx := compress mask idx in
  let non_nans := if ascending then non_nans else reverse non_nans in
  let non_nan_idx := if ascending then non_nan_idx else reverse non_nan_idx in
  let indexer := take_idx non_nan_idx (argsort K ltb non_nans) in
  let indexer := if ascending then indexer else reverse indexer in
  indexer ++ nan_idx.

(** ** The caller's frame and the logger *)

(** What the logger is handed.  The text of the messages is fixed by the
    source; the fields are the values formatted into it. *)
Inductive log_entry :=
| InfoDetected (cgpa_idx : nat) (cgpa_col : string) (pref_cols : list string) (n : nat)
| WarningNaN
| ExceptionDuringAllocation (e : exn).

(** The state [allocate_students] runs in: the frame object its argument
    [df] refers to, which the caller still holds afterwards, and the records
    handed to the logger so far. *)
Record world (num : Type) := {
  df_obj : DataFrame num;
  log : list log_entry;
}.
Arguments df_obj {num} w.
Arguments log {num} w.

(** Statements: state passing over [world], with exceptions. *)
Definition M (num : Type) (A : Type) : Type := world num → world num * result A.

#[global] Instance M_ret {num} : MRet (M num) := λ A a w, (w, Ok a).
#[global] Instance M_bind {num} : MBind (M num) := λ A B f m w,
  match m w with
  | (w', Ok a) => f a w'
  | (w', Raise e) => (w', Raise e)
  end.

(** A pure step that may raise. *)
Definition lift {num A} (r : result A) : M num A := λ w, (w, r).

(** [raise e] *)
Definition raise {num A} (e : exn) : M num A := λ w, (w, Raise e).

(** Read the frame behind [df]. *)
Definition read_df {num} : M num (DataFrame num) := λ w, (w, Ok (df_obj w)).

(** Replace the frame behind [df] (an in-place update of the object). *)
Definition write_df {num} (d : DataFrame num) : M num unit :=
  λ w, ({| df_obj := d; log := log w |}, Ok tt).

(** [logger.info], [logger.warning], [logger.exception]. *)
Definition emit {num} (e : log_entry) : M num unit :=
  λ w, ({| df_obj := df_obj w; log := log w ++ [e] |}, Ok tt).

(** [try: body  except Exception as e: handler(e)] *)
Definition try_except {num A} (body : M num A) (handler : exn → M num A) : M num A :=
  λ w,
  match body w with
  | (w', Ok a) => (w', Ok a)
  | (w', Raise e) => handler e w'
  end.

(** ** The allocation *)

(** The faculty count table: columns [Faculty] and [AllocatedCount]. *)
Record CountFrame (num : Type) := {
  count_columns : list string;
  count_rows : list (cell num * nat);
}.
Arguments count_columns {num} c.
Arguments count_rows {num} c.

Section Allocation.
Context {num : Type} `{!EqDecision num} `{!Numeric num}.

(** [x < y] on present grade values. *)
Variable num_ltb : num → num → bool.

(** How [pd.to_numeric] reads one text field: the number, or [None] when the
    text is not numeric. *)
Variable parse : string → option num.

(** [ndarray.argsort(kind="quicksort")], the default [kind] of
    [sort_values]. *)
Variable argsort : argsort_fn.

(** [pd.to_numeric(_, errors="coerce")] on one value. *)
Definition to_numeric_cell (c : cell num) : cell num :=
  match c with
  | CStr s =>
      match parse s with
      | Some x => CNum x
      | None => CNaN
      end
  | CNum x => CNum x
  | CNaN => CNaN
  end.

(** [pd.to_numeric(series, errors="coerce")] *)
Definition to_numeric (series : list (cell num)) : list (cell num) :=
  to_numeric_cell <$> series.

(** [df.sort_values(by=by_col, ascending=False).reset_index(drop=True)] *)
Definition sort_values_desc (df : DataFrame num) (by_col : string) : result (DataFrame num) :=
  k ← getitem df by_col;
  keys ← mapM cell_key k;
  let indexer := nargsort argsort num_ltb false keys in
  Ok {| columns := columns df; rows := take_idx (rows df) indexer |}.

(** The loop [for idx, row in df_sorted.iterrows()], entered at position
    [idx] with the list [assigned] built so far; [todo] holds the rows that
    [iterrows] has still to yield. *)
Fixpoint assign_loop (cols pref_cols : list string) (n idx : nat)
    (todo : list (list (cell num))) (assigned : list (cell num)) :
    result (list (cell num)) :=
  match todo with
  | [] => Ok assigned
  | row :: todo' =>
      pref_col ← py_index pref_cols (idx mod n);
      assigned_fac ← row_getitem cols row pref_col;
      assign_loop cols pref_cols n (S idx) todo' (assigned ++ [assigned_fac])
  end.

(** The hash table behind [value_counts]: bump the count of [v], a new key
    going last. *)
Fixpoint bump (v : cell num) (table : list (cell num * nat)) : list (cell num * nat) :=
  match table with
  | [] => [(v, 1)]
  | (k, c) :: table' =>
      if decide (k = v) then (k, S c) :: table' else (k, c) :: bump v table'
  end.

(** Keys in order of first appearance, with their counts. *)
Definition value_count (vals : list (cell num)) : list (cell num * nat) :=
  foldl (λ table v, bump v table) [] vals.

(** [series.value_counts(dropna=False).reset_index()]: NaN is a key like any
    other; the table is then sorted by count, descending. *)
Definition value_counts (vals : list (cell num)) : list (cell num * nat) :=
  let table := value_count vals in
  let indexer := nargsort argsort Nat.ltb false (Some <$> table.*2) in
  take_idx table indexer.

Definition msg_no_cgpa : string :=
  "No column with name containing 'cgpa' found. Please ensure your CSV has a CGPA column.".

Definition msg_no_pref : string :=
  "No preference columns found after the CGPA column. At least one preference column is required.".

(** The [try] block of [allocate_students]. *)
Definition allocate_students_body : M num (DataFrame num * CountFrame num) :=
  df ← read_df;
  let cols := columns df in
  match find_cgpa_col cols with
  | None => raise (ValueError msg_no_cgpa)
  | Some cgpa_idx =>
      let pref_cols := drop (cgpa_idx + 1) cols in
      if decide (length pref_cols = 0) then raise (ValueError msg_no_pref)
      else
        let n := length pref_cols in
        cgpa_col ← lift (py_index cols cgpa_idx);
        emit (InfoDetected cgpa_idx cgpa_col pref_cols n);;
        series ← lift (getitem df cgpa_col);
        df' ← lift (setitem df cgpa_col (to_numeric series));
        write_df df';;
        df ← read_df;
        series ← lift (getitem df cgpa_col);
        (if existsb isna series then emit WarningNaN else mret tt);;
        df_sorted ← lift (sort_values_desc df cgpa_col);
        assigned ← lift (assign_loop (columns df_sorted) pref_cols n 0
                                     (iterrows df_sorted) []);
        df_sorted ← lift (setitem df_sorted "AssignedFaculty" assigned);
        let allocation_df := df_sorted in
        col ← lift (getitem allocation_df "AssignedFaculty");
        let fac_count :=
          {| count_columns := ["Faculty"; "AllocatedCount"];
             count_rows := value_counts col |} in
        mret (allocation_df, fac_count)
  end.

(** [allocate_students(df)]: any exception is logged and raised again.  The
    result is the pair [(allocation_df, fac_count)]. *)
Definition allocate_students : M num (DataFrame num * CountFrame num) :=
  try_except allocate_students_body
    (λ e, emit (ExceptionDuringAllocation e);; raise e).

(** *** What a successful run computes, in closed form *)

(** A row with its grade cell coerced. *)
Definition coerce_grade (cgpa_idx : nat) (row : list (cell num)) : list (cell num) :=
  <[cgpa_idx := to_numeric_cell (row !!! cgpa_idx)]> row.

(** The caller's frame after the coercion of line 55. *)
Definition coerced (df : DataFrame num) (cgpa_idx : nat) : DataFrame num :=
  {| columns := columns df; rows := coerce_grade cgpa_idx <$> rows df |}.

(** The grade of a row as the sort sees it: [None] is NaN. *)
Definition grade (cgpa_idx : nat) (row : list (cell num)) : option num :=
  match to_numeric_cell (row !!! cgpa_idx) with
  | CNum x => Some x
  | _ => None
  end.

(** The rows of [df_sorted] before the new column is set. *)
Definition ranked (df : DataFrame num) (cgpa_idx : nat) : list (list (cell num)) :=
  take_idx (coerce_grade cgpa_idx <$> rows df)
           (nargsort argsort num_ltb false (grade cgpa_idx <$> rows df)).

(** The list [assigned] after the loop: the cells are read from the rows as
    [iterrows] yields them. *)
Definition assigned_of (cgpa_idx n : nat) (rs : list (list (cell num))) : list (cell num) :=
  imap (λ idx row, astype (values_dtype rs) (row !!! (cgpa_idx + 1 + idx mod n))) rs.

(** The log records of a successful run. *)
Definition success_log (df : DataFrame num) (cgpa_idx : nat) (cgpa_col : string) :
    list log_entry :=
  let pref_cols := drop (cgpa_idx + 1) (columns df) in
  InfoDetected cgpa_idx cgpa_col pref_cols (length pref_cols) ::
  (if existsb isna ((λ r, r !!! cgpa_idx) <$> rows (coerced df cgpa_idx))
   then [WarningNaN] else []).

(** [allocation_df] of a successful run. *)
Definition allocation_of (df : DataFrame num) (cgpa_idx : nat) : DataFrame num :=
  let n := length (drop (cgpa_idx + 1) (columns df)) in
  let rs := ranked df cgpa_idx in
  set_column {| columns := columns df; rows := rs |} "AssignedFaculty"
             (assigned_of cgpa_idx n rs).

(** [fac_count] of a successful run. *)
Definition fac_count_of (df : DataFrame num) (cgpa_idx : nat) : CountFrame num :=
  let n := length (drop (cgpa_idx + 1) (columns df)) in
  {| count_columns := ["Faculty"; "AllocatedCount"];
     count_rows := value_counts (assigned_of cgpa_idx n (ranked df cgpa_idx)) |}.

End Allocation.

(** ** Counting *)

(** How often [v] occurs in [vals]. *)
Definition occurrences {A} `{!EqDecision A} (v : A) (vals : list A) : nat :=
  length (filter (λ x, x = v) vals).

(** The table [T] maps exactly the values in [seen] to their number of
    occurrences. *)
Definition counts_of {num} `{!EqDecision num} (T : list (cell num * nat))
    (seen : list (cell num)) : Prop :=
  NoDup T.*1 ∧ ∀ k c, (k, c) ∈ T ↔ c = occurrences k seen ∧ 0 < c.

(** ** The contract of [argsort], and sorts that meet it *)

(** A strict order on keys under which sorting is meaningful: irreflexive,
    transitive, and with a transitive "not less than". *)
Record strict_weak {K} (ltb : K → K → bool) : Prop := {
  sw_irrefl : ∀ a, ltb a a = false;
  sw_trans : ∀ a b c, ltb a b = true → ltb b c = true → ltb a c = true;
  sw_incomp : ∀ a b c, ltb b a = false → ltb c b = false → ltb c a = false;
}.

(** The keys [ks] read in the order [p]. *)
Definition keys_in_order {K} (ks : list K) (p : list nat) : list K :=
  omap (λ i, ks !! i) p.

(** [argsort] lists each position once. *)
Definition argsort_permutes (argsort : argsort_fn) : Prop :=
  ∀ K (ltb : K → K → bool) (ks : list K), argsort K ltb ks ≡ₚ seq 0 (length ks).

(** What NumPy documents of [argsort] for every [kind]: the result lists each
    position once, and reading the keys in that order no key is less than an
    earlier one.  Nothing is said of the order of equal keys unless
    [kind="stable"] is asked for. *)
Record argsort_contract (argsort : argsort_fn) : Prop := {
  argsort_perm : argsort_permutes argsort;
  argsort_sorted : ∀ K (ltb : K → K → bool) (ks : list K),
    strict_weak ltb →
    StronglySorted (λ a b, ltb b a = false) (keys_in_order ks (argsort K ltb ks));
}.

(** "Not after", on keys paired with their positions. *)
Definition key_le {K} (ltb : K → K → bool) : relation (K * nat) :=
  λ a b, ltb b.1 a.1 = false.

#[global] Instance key_le_dec {K} (ltb : K → K → bool) : RelDecision (key_le ltb).
Proof. intros a b. unfold key_le. apply _. Defined.

(** An argsort by merge sort of the (key, position) pairs. *)
Definition merge_argsort : argsort_fn :=
  λ K ltb ks, (merge_sort (key_le ltb) (zip ks (seq 0 (length ks)))).*2.

(** An argsort that is not stable: equal keys come out by descending
    position.  It sorts the reversed keys stably and maps the positions
    back. *)
Definition argsort_ties_descending : argsort_fn :=
  λ K ltb ks, (λ i, length ks - 1 - i) <$> merge_argsort K ltb (reverse ks).

(** ** Rational grades *)

#[global] Instance Q_eq_dec : EqDecision Q.
Proof. solve_decision. Defined.

(** [x < y] on rationals. *)
Definition Qltb (x y : Q) : bool := negb (Qle_bool y x).

(** Frames over [Q] hold their numbers as [float64], taken exactly: no number
    is an [int64], and the cast to [float64] changes nothing. *)
#[global] Instance Q_numeric : Numeric Q := {|
  is_int64 := λ _, false;
  to_float64 := λ x, x;
|}.

(** A reader for plain decimal numerals such as [9], [8.5] or [07.25]; any
    other text is not numeric.  On these texts it reads what [pd.to_numeric]
    reads. *)
Definition digit_of (a : ascii) : option nat :=
  let k := nat_of_ascii a in
  if ((48 <=? k)%nat && (k <=? 57)%nat)%bool then Some (k - 48) else None.

(** Digits read so far as [(value, count)], extended over [s]. *)
Fixpoint read_digits (s : string) (acc : nat * nat) : option (nat * nat * string) :=
  match s with
  | EmptyString => Some (acc, EmptyString)
  | String a s' =>
      match digit_of a with
      | Some d => read_digits s' (10 * acc.1 + d, S acc.2)
      | None => Some (acc, s)
      end
  end.

Definition parse_decimal (s : string) : option Q :=
  match read_digits s (0, 0) with
  | Some ((i, S _), EmptyString) => Some (inject_Z (Z.of_nat i))
  | Some ((i, S _), String "." s') =>
      match read_digits s' (0, 0) with
      | Some ((f, S k), EmptyString) =>
          Some (Qred (Z.of_nat (i * 10 ^ S k + f) # Pos.of_nat (10 ^ S k)))
      | _ => None
      end
  | _ => None
  end.

(** ** Integer and float numbers *)

(** A number of a frame: an [int64], or a [float64] given by its exact
    value. *)
Inductive npnum :=
| NpInt (z : Z)
| NpFloat (q : Q).

#[global] Instance npnum_eq_dec : EqDecision npnum.
Proof. solve_decision. Defined.



(** The cast of an [int64] to [float64]: the nearest number with a
    significand of 53 bits, a tie going to the even significand.  The outcome
    is an integer again, and no [int64] is out of range. *)
Definition float64_of_int (z : Z) : Z :=
  let a := Z.abs z in
  let bits := (Z.log2 a + 1)%Z in
  if (bits <=? 53)%Z then z
  else
    let sh := (bits - 53)%Z in
    let q := Z.shiftr a sh in
    let r := Z.land a (Z.ones sh) in
    let half := Z.shiftl 1 (sh - 1) in
    let q' := if ((half <? r)%Z || ((r =? half)%Z && Z.odd q))%bool
              then (q + 1)%Z else q in
    (Z.sgn z * Z.shiftl q' sh)%Z.

#[global] Instance npnum_numeric : Numeric npnum := {|
  is_int64 := λ x, match x with NpInt _ => true | NpFloat _ => false end;
  to_float64 := λ x,
    match x with
    | NpInt z => NpFloat (inject_Z (float64_of_int z))
    | NpFloat q => NpFloat q
    end;
|}.


(** ** Example frames *)

(** Header [Name,CGPA,Pref1,Pref2] with rows [(A,9.0,FacX,FacY)],
    [(B,7.0,FacY,FacX)], [(C,8.5,FacX,FacZ)], as [pd.read_csv] delivers it:
    the grade column is numeric. *)
Definition df_e2e : DataFrame Q := {|
  columns := ["Name"; "CGPA"; "Pref1"; "Pref2"];
  rows := [ [CStr "A"; CNum 9%Q; CStr "FacX"; CStr "FacY"];
            [CStr "B"; CNum 7%Q; CStr "FacY"; CStr "FacX"];
            [CStr "C"; CNum (17 # 2)%Q; CStr "FacX"; CStr "FacZ"] ];
|}.

(** Four students in upload order A, B, C, D with the grades 8, 8, 9, 9:
    two pairs of tied grades. *)
Definition df_tied : DataFrame Q := {|
  columns := ["Name"; "CGPA"; "Pref1"];
  rows := [ [CStr "A"; CNum 8%Q; CStr "FacA"];
            [CStr "B"; CNum 8%Q; CStr "FacB"];
            [CStr "C"; CNum 9%Q; CStr "FacC"];
            [CStr "D"; CNum 9%Q; CStr "FacD"] ];
|}.


(** A grade column that holds text: one grade was entered as [abc], so
    [pd.read_csv] left the whole column as text. *)
Definition df_text : DataFrame Q := {|
  columns := ["Name"; "CGPA"; "Pref1"];
  rows := [ [CStr "A"; CStr "8.5"; CStr "FacX"];
            [CStr "B"; CStr "abc"; CStr "FacY"] ];
|}.

(** An upload that already has a column named [AssignedFaculty]. *)
Definition df_clash : DataFrame Q := {|
  columns := ["AssignedFaculty"; "CGPA"; "Pref1"];
  rows := [ [CStr "old"; CNum 9%Q; CStr "FacX"] ];
|}.

(** A header without data rows. *)
Definition df_empty : DataFrame Q := {|
  columns := ["Name"; "CGPA"; "Pref1"; "Pref2"];
  rows := [];
|}.

(** A fresh run: the frame and an empty log. *)
Definition fresh {num} (df : DataFrame num) : world num :=
  {| df_obj := df; log := [] |}.

(** ** The logger set-up (lines 10 to 23) *)

(** The levels the script uses, with their numbers in [logging]. *)
Inductive level := DEBUG | INFO | WARNING | ERROR.

#[global] Instance level_eq_dec : EqDecision level.
Proof. solve_decision. Defined.

Definition levelno (l : level) : nat :=
  match l with
  | DEBUG => 10
  | INFO => 20
  | WARNING => 30
  | ERROR => 40
  end.

(** Where a handler writes: [FileHandler(filename)] or [StreamHandler()]. *)
Inductive stream :=
| FileStream (filename : string)
| ConsoleStream.

#[global] Instance stream_eq_dec : EqDecision stream.
Proof. solve_decision. Defined.

Record Handler := {
  h_stream : stream;
  h_level : level;
}.

(** The logger object [logging.getLogger("allocation_app")]: one per
    process, so it keeps its handlers when the script is run again.  Handlers
    of parent loggers are not modelled. *)
Record Logger := {
  lg_level : level;
  handlers : list Handler;
}.

(** Lines 10 to 23, run at the top of every script run. *)
Definition logger_setup (L : Logger) : Logger :=
  let L := {| lg_level := DEBUG; handlers := handlers L |} in
  match handlers L with
  | [] =>
      let fh := {| h_stream := FileStream "allocation_app.log"; h_level := DEBUG |} in
      let sh := {| h_stream := ConsoleStream; h_level := INFO |} in
      {| lg_level := lg_level L; handlers := (handlers L ++ [fh]) ++ [sh] |}
  | _ :: _ => L
  end.

(** [Logger.handle]: a record of level [lv] that passes the logger's level
    is emitted by every handler whose level it passes, in handler order.  The
    outcome lists the writes as (stream, record). *)
Definition call_handlers {R} (L : Logger) (lv : level) (r : R) : list (stream * R) :=
  if levelno (lg_level L) <=? levelno lv
  then (λ h, (h_stream h, r)) <$>
       filter (λ h, levelno (h_level h) ≤ levelno lv) (handlers L)
  else [].

(** The writes caused by a sequence of records. *)
Definition log_all {R} (L : Logger) (level_of : R → level) (rs : list R) :
    list (stream * R) :=
  rs ≫= (λ r, call_handlers L (level_of r) r).

(** What has been written to one stream. *)
Definition written_to {R} (s : stream) (writes : list (stream * R)) : list R :=
  (filter (λ w, w.1 = s) writes).*2.

(** ** The page script (lines 86 to 136) *)

(** What the [try] block of the script can catch: an exception of
    [allocate_students], or one of [pd.read_csv], kept by its text. *)
Inductive failure :=
| Raised (e : exn)
| ReadCsvError (text : string).

(** The records the script hands to the logger: those of
    [allocate_students], and its own [logger.exception("Processing error")]. *)
Inductive app_record :=
| EngineRecord (r : log_entry)
| ProcessingError (e : failure).

(** [logger.info], [logger.warning] and [logger.exception] fix the level. *)
Definition record_level (r : app_record) : level :=
  match r with
  | EngineRecord (InfoDetected _ _ _ _) => INFO
  | EngineRecord WarningNaN => WARNING
  | EngineRecord (ExceptionDuringAllocation _) => ERROR
  | ProcessingError _ => ERROR
  end.

(** The Streamlit calls of the script, with their arguments. *)
Inductive st_event (num : Type) :=
| StSetPageConfig (page_title layout : string)
| StTitle (body : string)
| StFileUploader (label : string) (types : list string)
| StWrite (body : string)
| StDataframe (data : DataFrame num)
| StCounts (data : CountFrame num)
| StInfo (body : string)
| StSuccess (body : string)
| StSubheader (body : string)
| StError (body : string)
| StDownloadButton (label data file_name mime : string).
Arguments StSetPageConfig {num} page_title layout.
Arguments StTitle {num} body.
Arguments StFileUploader {num} label types.
Arguments StWrite {num} body.
Arguments StDataframe {num} data.
Arguments StCounts {num} data.
Arguments StInfo {num} body.
Arguments StSuccess {num} body.
Arguments StSubheader {num} body.
Arguments StError {num} body.
Arguments StDownloadButton {num} label data file_name mime.

(** One script run: the records handed to the logger and the elements put
    on the page, both in order. *)
Record session (num : Type) := {
  records : list app_record;
  page : list (st_event num);
}.
Arguments records {num} s.
Arguments page {num} s.

(** Outcome of a script statement. *)
Inductive outcome (A : Type) :=
| Done (a : A)
| Failed (e : failure).
Arguments Done {A} a.
Arguments Failed {A} e.

(** Script statements: state passing over [session], with exceptions. *)
Definition Script (num : Type) (A : Type) : Type :=
  session num → session num * outcome A.

#[global] Instance Script_ret {num} : MRet (Script num) := λ A a s, (s, Done a).
#[global] Instance Script_bind {num} : MBind (Script num) := λ A B f m s,
  match m s with
  | (s', Done a) => f a s'
  | (s', Failed e) => (s', Failed e)
  end.

(** A Streamlit call. *)
Definition show {num} (e : st_event num) : Script num unit :=
  λ s, ({| records := records s; page := page s ++ [e] |}, Done tt).

(** A record handed to the logger. *)
Definition hand_to_logger {num} (r : app_record) : Script num unit :=
  λ s, ({| records := records s ++ [r]; page := page s |}, Done tt).

(** [try: body  except Exception as e: handler(e)] in the script. *)
Definition try_script {num A} (body : Script num A) (handler : failure → Script num A) :
    Script num A :=
  λ s,
  match body s with
  | (s', Done a) => (s', Done a)
  | (s', Failed e) => handler e s'
  end.

(** [df.head(k)] *)
Definition head {num} (k : nat) (df : DataFrame num) : DataFrame num :=
  {| columns := columns df; rows := take k (rows df) |}.

(** The notice of the [except] branch, from [str(e)]. *)
Definition error_notice (text : string) : string :=
  "Error: " +:+ text +:+ ". See logs for details (allocation_app.log).".

Section Page.
Context {num : Type} `{!EqDecision num} `{!Numeric num}.
Variable num_ltb : num → num → bool.
Variable parse : string → option num.
Variable argsort : argsort_fn.

(** [pd.read_csv] on the uploaded bytes: a frame, or an exception given by
    its text. *)
Variable read_csv : string → string + DataFrame num.

(** [to_csv(index=False).encode("utf-8")] on the two tables. *)
Variable to_csv : DataFrame num → string.
Variable counts_to_csv : CountFrame num → string.

(** [datetime.now().strftime("%Y%m%d_%H%M%S")], read once per run. *)
Variable now : string.

(** [str(e)] for the exceptions whose text the model does not fix. *)
Variable str_other : exn → string.

(** [str(e)] *)
Definition failure_str (e : failure) : string :=
  match e with
  | Raised (ValueError msg) => msg
  | Raised e' => str_other e'
  | ReadCsvError text => text
  end.

(** [df = pd.read_csv(uploaded_file)] *)
Definition pd_read_csv (uploaded_file : string) : Script num (DataFrame num) :=
  λ s,
  match read_csv uploaded_file with
  | inr df => (s, Done df)
  | inl text => (s, Failed (ReadCsvError text))
  end.

(** [allocate_students(df)] called from the script: [df] is the script's own
    frame object; the records of the call go to the logger after those the
    script has handed over so far. *)
Definition call_allocate (df : DataFrame num) :
    Script num (DataFrame num * CountFrame num) :=
  λ s,
  let '(w, r) := allocate_students num_ltb parse argsort {| df_obj := df; log := [] |} in
  let s' := {| records := records s ++ (EngineRecord <$> log w); page := page s |} in
  match r with
  | Ok tables => (s', Done tables)
  | Raise e => (s', Failed (Raised e))
  end.

(** The [try] block, lines 95 to 130. *)
Definition process_upload (uploaded_file : string) : Script num unit :=
  df ← pd_read_csv uploaded_file;
  show (StWrite "Preview of uploaded data (first 10 rows):");;
  show (StDataframe (head 10 df));;
  show (StInfo "Running allocation...");;
  tables ← call_allocate df;
  let allocation_df := tables.1 in
  let fac_count_df := tables.2 in
  show (StSuccess "Allocation completed successfully.");;
  show (StSubheader "Allocation Preview");;
  show (StDataframe (head 20 allocation_df));;
  show (StSubheader "Faculty Allocation Counts");;
  show (StCounts fac_count_df);;
  let allocation_csv := to_csv allocation_df in
  let fac_count_csv := counts_to_csv fac_count_df in
  let allocation_filename := "output_btp_mtp_allocation_" +:+ now +:+ ".csv" in
  let fac_count_filename := "fac_preference_count_" +:+ now +:+ ".csv" in
  show (StDownloadButton "Download allocation CSV" allocation_csv
          allocation_filename "text/csv");;
  show (StDownloadButton "Download faculty counts CSV" fac_count_csv
          fac_count_filename "text/csv").

(** The [except] branch, lines 132 to 134. *)
Definition on_exception (e : failure) : Script num unit :=
  hand_to_logger (ProcessingError e);;
  show (StError (error_notice (failure_str e))).

(** Lines 86 to 136: the page for one script run; [uploaded_file] is what
    [st.file_uploader] returns. *)
Definition page_script (uploaded_file : option string) : Script num unit :=
  show (StSetPageConfig "MTP Allocation" "wide");;
  show (StTitle "MTP Allocation Tool");;
  show (StFileUploader "Upload input CSV" ["csv"]);;
  match uploaded_file with
  | Some f => try_script (process_upload f) on_exception
  | None => show (StInfo "Please upload an input CSV to start allocation.")
  end.

End Page.

(** A script run starts with an empty page. *)
Definition new_run {num} (handed : list app_record) : session num :=
  {| records := handed; page := [] |}.

(** The elements of a page of one kind. *)
Definition is_error {num} (e : st_event num) : bool :=
  match e with StError _ => true | _ => false end.

Definition is_success {num} (e : st_event num) : bool :=
  match e with StSuccess _ => true | _ => false end.

Definition is_download {num} (e : st_event num) : bool :=
  match e with StDownloadButton _ _ _ _ => true | _ => false end.

Definition is_table {num} (e : st_event num) : bool :=
  match e with StDataframe _ | StCounts _ => true | _ => false end.

Definition is_processing_error (r : app_record) : bool :=
  match r with ProcessingError _ => true | _ => false end.

(** The two handlers of the script. *)
Definition file_handler : Handler :=
  {| h_stream := FileStream "allocation_app.log"; h_level := DEBUG |}.

Definition console_handler : Handler :=
  {| h_stream := ConsoleStream; h_level := INFO |}.

(** The first three elements of every page. *)
Definition page_top {num} : list (st_event num) :=
  [ StSetPageConfig "MTP Allocation" "wide";
    StTitle "MTP Allocation Tool";
    StFileUploader "Upload input CSV" ["csv"] ].

(** An upload without a grade column. *)
Definition df_no_grade : DataFrame Q := {|
  columns := ["Name"; "Score"; "Pref1"];
  rows := [ [CStr "A"; CNum 9%Q; CStr "FacX"] ];
|}.

(** * Part II: properties *)

(** ** Strings and grade-column detection *)

Lemma startswith_spec p s :
  Text.startswith p s = true ↔ ∃ post, s = p +:+ post.
Proof.
  revert s. induction p as [|a p IH]; intros s; simpl.
  - split; [eauto|done].
  - destruct s as [|b s].
    + split; [done|]. intros [post Hpost]. discriminate.
    + rewrite andb_true_iff, bool_decide_eq_true, IH. split.
      * intros [-> [post ->]]. eauto.
      * intros [post [= -> ->]]. eauto.
Qed.

Lemma contains_spec p s : Text.contains p s = true ↔ Text.substring_of p s.
Proof.
  unfold Text.substring_of. induction s as [|b s IH]; simpl.
  - rewrite orb_false_r, startswith_spec. split.
    + intros [post ->]. by exists EmptyString, post.
    + intros [pre [post H]]. destruct pre; simpl in H; [eauto|discriminate].
  - rewrite orb_true_iff, startswith_spec, IH. split.
    + intros [[post ->]|[pre [post ->]]].
      * by exists EmptyString, post.
      * by exists (String b pre), post.
    + intros [pre [post H]]. destruct pre as [|c pre]; simpl in H.
      * left. eauto.
      * right. injection H as -> ->. eauto.
Qed.

Lemma find_cgpa_col_from_Some i cols k :
  find_cgpa_col_from i cols = Some k ↔
  ∃ j c, k = i + j ∧ cols !! j = Some c ∧ is_cgpa_name c ∧
         ∀ j' c', j' < j → cols !! j' = Some c' → ¬ is_cgpa_name c'.
Proof.
  unfold is_cgpa_name. revert i. induction cols as [|c cols IH]; intros i; simpl.
  - split; [done|]. intros (j & c & _ & Hj & _). by rewrite lookup_nil in Hj.
  - destruct (Text.contains "cgpa" (Text.lower c)) eqn:Hc.
    + split.
      * intros [= <-]. exists 0, c. split_and!; [lia|done|by apply contains_spec|].
        intros; lia.
      * intros (j & c0 & -> & Hj & Hc0 & Hfirst). destruct j as [|j]; [f_equal; lia|].
        exfalso. apply (Hfirst 0 c); [lia|done|]. by apply contains_spec.
    + rewrite IH. split.
      * intros (j & c0 & -> & Hj & Hc0 & Hfirst). exists (S j), c0.
        split_and!; [lia|done|done|]. intros [|j'] c' Hlt Hj'; simpl in Hj'.
        -- injection Hj' as <-. rewrite <- contains_spec. by rewrite Hc.
        -- apply (Hfirst j'); [lia|done].
      * intros (j & c0 & -> & Hj & Hc0 & Hfirst). destruct j as [|j]; simpl in Hj.
        -- injection Hj as <-. apply contains_spec in Hc0. congruence.
        -- exists j, c0. split_and!; [lia|done|done|].
           intros j' c' Hlt Hj'. apply (Hfirst (S j') c'); [lia|done].
Qed.

Lemma find_cgpa_col_from_None i cols :
  find_cgpa_col_from i cols = None ↔ ∀ c, c ∈ cols → ¬ is_cgpa_name c.
Proof.
  unfold is_cgpa_name. revert i. induction cols as [|c cols IH]; intros i; simpl.
  - split; [|done]. intros _ c Hc. by apply elem_of_nil in Hc.
  - destruct (Text.contains "cgpa" (Text.lower c)) eqn:Hc.
    + split; [done|]. intros H. exfalso. apply (H c); [left|]. by apply contains_spec.
    + rewrite IH. split.
      * intros H c' [->|Hin]%elem_of_cons; [|by apply H].
        rewrite <- contains_spec. by rewrite Hc.
      * intros H c' Hin. apply H. by right.
Qed.

Lemma find_cgpa_col_lookup cols j :
  find_cgpa_col cols = Some j → ∃ c, cols !! j = Some c.
Proof.
  unfold find_cgpa_col. intros (k & c & -> & Hk & _)%find_cgpa_col_from_Some. eauto.
Qed.

(** C5. [find_cgpa_col] returns the zero-based position of the first column,
    scanning left to right, whose lower-cased name contains the substring
    "cgpa", and [None] exactly when no column name contains it; it returns 1
    on [Name, SomeCGPA, Pref1, Pref2] and [None] on [Name, Score, Pref1]. *)
Theorem find_cgpa_col_first_match :
  (∀ cols k,
     find_cgpa_col cols = Some k ↔
     ∃ c, cols !! k = Some c ∧ is_cgpa_name c ∧
          ∀ j c', j < k → cols !! j = Some c' → ¬ is_cgpa_name c') ∧
  (∀ cols,
     find_cgpa_col cols = None ↔ ∀ c, c ∈ cols → ¬ is_cgpa_name c) ∧
  find_cgpa_col ["Name"; "SomeCGPA"; "Pref1"; "Pref2"] = Some 1 ∧
  find_cgpa_col ["Name"; "Score"; "Pref1"] = None.
Proof.
  split_and!; [| |reflexivity|reflexivity].
  - intros cols k. unfold find_cgpa_col. rewrite find_cgpa_col_from_Some. split.
    + intros (j & c & -> & H). exists c. exact H.
    + intros (c & H). exists k, c. split; [lia|exact H].
  - intros cols. apply find_cgpa_col_from_None.
Qed.

(** ** Index arrays *)

Lemma take_idx_seq {A} `{!Inhabited A} (l : list A) :
  take_idx l (seq 0 (length l)) = l.
Proof.
  apply list_eq. intros i. unfold take_idx. rewrite list_lookup_fmap.
  destruct (l !! i) as [x|] eqn:Hi.
  - rewrite lookup_seq_lt by (by eapply lookup_lt_Some). simpl.
    f_equal. by apply list_lookup_total_correct.
  - rewrite (proj2 (lookup_ge_None (seq 0 (length l)) i)); [done|].
    rewrite length_seq. by apply lookup_ge_None.
Qed.

Lemma take_idx_perm {A} `{!Inhabited A} (l : list A) (p : list nat) :
  p ≡ₚ seq 0 (length l) → take_idx l p ≡ₚ l.
Proof.
  intros Hp. rewrite <- (take_idx_seq l) at 2. unfold take_idx. by rewrite Hp.
Qed.

Lemma length_take_idx {A} `{!Inhabited A} (l : list A) (p : list nat) :
  length (take_idx l p) = length p.
Proof. unfold take_idx. by rewrite length_fmap. Qed.

Lemma compress_split {A} (mask : list bool) (a : list A) :
  length mask = length a →
  compress (negb <$> mask) a ++ compress mask a ≡ₚ a.
Proof.
  revert a. induction mask as [|m mask IH]; intros [|x a] Hlen; simpl in *; try done.
  injection Hlen as Hlen. destruct m; simpl.
  - rewrite <- Permutation_middle. by rewrite IH.
  - by rewrite IH.
Qed.

Lemma length_compress_present {A K} (items : list (option K)) (a : list A) :
  length a = length items →
  length (compress (negb <$> (key_isna <$> items)) a) = length (omap id items).
Proof.
  revert a. induction items as [|[k|] items IH]; intros [|x a] Hlen; simpl in *; try done.
  - injection Hlen as Hlen. by rewrite IH.
  - injection Hlen as Hlen. by rewrite IH.
Qed.

Section Nargsort.
Context (argsort : argsort_fn) (Hperm : argsort_permutes argsort).

Lemma nargsort_perm {K} (ltb : K → K → bool) (ascending : bool) (items : list (option K)) :
  nargsort argsort ltb ascending items ≡ₚ seq 0 (length items).
Proof.
  unfold nargsort.
  set (idx := seq 0 (length items)).
  set (mask := key_isna <$> items).
  assert (Hlen : length idx = length items) by apply length_seq.
  assert (Hnn : length (compress (negb <$> mask) idx) = length (omap id items))
    by by apply length_compress_present.
  etrans; [|apply (compress_split mask idx); unfold mask; by rewrite length_fmap].
  apply Permutation_app; [|done].
  destruct ascending.
  - apply take_idx_perm. by rewrite (Hperm _ _ _), Hnn.
  - rewrite reverse_Permutation.
    etrans; [|apply reverse_Permutation].
    apply take_idx_perm. by rewrite (Hperm _ _ _), !length_reverse, Hnn.
Qed.

End Nargsort.

(** ** Frames *)

Lemma list_find_NoDup (cols : list string) j c :
  NoDup cols → cols !! j = Some c → list_find (λ x, x = c) cols = Some (j, c).
Proof.
  intros Hnd Hj. apply list_find_Some. split_and!; [done|done|].
  intros i y Hi Hlt ->. assert (i = j) by by eapply NoDup_lookup. lia.
Qed.

Lemma get_loc_NoDup (cols : list string) j c :
  NoDup cols → cols !! j = Some c → get_loc cols c = Ok j.
Proof. intros Hnd Hj. unfold get_loc. by rewrite (list_find_NoDup cols j c). Qed.

Lemma getitem_col {num} (df : DataFrame num) j c :
  NoDup (columns df) → columns df !! j = Some c →
  getitem df c = Ok ((λ r, r !!! j) <$> rows df).
Proof. intros Hnd Hj. unfold getitem. by rewrite (get_loc_NoDup _ j c). Qed.

Lemma row_getitem_col {num} cols (row : list (cell num)) j c :
  NoDup cols → cols !! j = Some c → length row = length cols →
  row_getitem cols row c = Ok (row !!! j).
Proof.
  intros Hnd Hj Hlen. unfold row_getitem. rewrite (get_loc_NoDup _ j c) by done. simpl.
  apply lookup_lt_Some in Hj.
  destruct (lookup_lt_is_Some_2 row j) as [v Hv]; [lia|].
  rewrite Hv. f_equal. symmetry. by apply list_lookup_total_correct.
Qed.

Section AllocationFacts.
Context {num : Type} `{!EqDecision num} `{!Numeric num}.
Context (num_ltb : num → num → bool) (parse : string → option num).
Context (argsort : argsort_fn).

Local Abbreviation row := (list (cell num)).

Lemma length_coerce_grade j (r : row) : length (coerce_grade parse j r) = length r.
Proof. unfold coerce_grade. by rewrite length_insert. Qed.

Lemma coerce_rows_zip j (rs : list row) :
  zip_with (λ r v, <[j := v]> r) rs (to_numeric parse ((λ r, r !!! j) <$> rs))
  = coerce_grade parse j <$> rs.
Proof.
  unfold to_numeric. rewrite <- list_fmap_compose, zip_with_fmap_r, zip_with_diag. done.
Qed.

Lemma setitem_coerce (df : DataFrame num) j c :
  NoDup (columns df) → columns df !! j = Some c →
  setitem df c (to_numeric parse ((λ r, r !!! j) <$> rows df)) = Ok (coerced parse df j).
Proof.
  intros Hnd Hj. unfold setitem, set_column, to_numeric.
  rewrite decide_True by (by rewrite !length_fmap).
  rewrite (list_find_NoDup _ j c) by done.
  f_equal. unfold coerced. f_equal. apply coerce_rows_zip.
Qed.

Lemma wf_coerced (df : DataFrame num) j : wf df → wf (coerced parse df j).
Proof.
  intros [Hnd Hrect]. split; [done|]. simpl.
  apply Forall_fmap. eapply Forall_impl; [exact Hrect|].
  intros r Hr. simpl. by rewrite length_coerce_grade.
Qed.

Lemma coerce_grade_at j (r : row) :
  j < length r → coerce_grade parse j r !!! j = to_numeric_cell parse (r !!! j).
Proof. intros Hj. unfold coerce_grade. by apply list_lookup_total_insert_eq. Qed.

Lemma cell_key_grade j (r : row) :
  j < length r → cell_key (coerce_grade parse j r !!! j) = Ok (grade parse j r).
Proof.
  intros Hj. rewrite coerce_grade_at by done. unfold grade.
  destruct (r !!! j) as [s|x|]; simpl; [destruct (parse s)|..]; done.
Qed.

Lemma mapM_cell_key j (rs : list row) :
  Forall (λ r, j < length r) rs →
  mapM cell_key ((λ r, r !!! j) <$> (coerce_grade parse j <$> rs))
  = Ok (grade parse j <$> rs).
Proof.
  induction 1 as [|r rs Hr _ IH]; [done|].
  rewrite !fmap_cons. cbn [mapM]. rewrite cell_key_grade by done.
  rewrite IH. done.
Qed.

Lemma assign_loop_ok cols pref_cols j n idx (todo : list row) assigned :
  NoDup cols → pref_cols = drop (j + 1) cols → n = length pref_cols → n ≠ 0 →
  Forall (λ r, length r = length cols) todo →
  assign_loop cols pref_cols n idx todo assigned
  = Ok (assigned ++ imap (λ k r, r !!! (j + 1 + (idx + k) mod n)) todo).
Proof.
  intros Hnd -> -> Hn Hrect. revert idx assigned.
  induction Hrect as [|r todo Hr _ IH]; intros idx assigned; simpl.
  - by rewrite app_nil_r.
  - set (n := length (drop (j + 1) cols)) in *.
    assert (Hlt : idx mod n < n) by by apply Nat.mod_upper_bound.
    destruct (lookup_lt_is_Some_2 (drop (j + 1) cols) (idx mod n)) as [pc Hpc]; [done|].
    unfold py_index. rewrite Hpc. simpl.
    rewrite lookup_drop in Hpc.
    rewrite (row_getitem_col cols r (j + 1 + idx mod n) pc) by done. simpl.
    rewrite IH, <- app_assoc. simpl. rewrite Nat.add_0_r. do 3 f_equal.
    apply imap_ext. intros k x _. simpl. do 3 f_equal. lia.
Qed.

Lemma iterrows_rect cols (rs : list row) :
  Forall (λ r, length r = length cols) rs →
  Forall (λ r, length r = length cols) (iterrows {| columns := cols; rows := rs |}).
Proof.
  intros Hrect. unfold iterrows. cbn [rows]. apply Forall_fmap.
  eapply Forall_impl; [exact Hrect|]. intros r Hr. simpl. by rewrite length_fmap.
Qed.

Lemma assigned_iterrows cols j n (rs : list row) :
  n = length (drop (j + 1) cols) → n ≠ 0 →
  Forall (λ r, length r = length cols) rs →
  imap (λ k r, r !!! (j + 1 + (0 + k) mod n)) (iterrows {| columns := cols; rows := rs |})
  = assigned_of j n rs.
Proof.
  intros Hn Hn0 Hrect. unfold iterrows, assigned_of. cbn [rows]. rewrite imap_fmap.
  apply imap_ext. intros k r Hr. simpl.
  rewrite Forall_lookup in Hrect. specialize (Hrect k r Hr). simpl in Hrect.
  assert (k mod n < n) by by apply Nat.mod_upper_bound.
  rewrite length_drop in Hn.
  apply list_lookup_total_fmap. lia.
Qed.

Hypothesis Hperm : argsort_permutes argsort.

Lemma ranked_perm (df : DataFrame num) j :
  ranked num_ltb parse argsort df j ≡ₚ coerce_grade parse j <$> rows df.
Proof.
  unfold ranked. apply take_idx_perm.
  rewrite nargsort_perm by done. by rewrite !length_fmap.
Qed.

Lemma ranked_rect (df : DataFrame num) j :
  wf df →
  Forall (λ r, length r = length (columns df)) (ranked num_ltb parse argsort df j).
Proof.
  intros [_ Hrect]. rewrite ranked_perm. apply Forall_fmap.
  eapply Forall_impl; [exact Hrect|]. intros r Hr. simpl. by rewrite length_coerce_grade.
Qed.

Lemma length_ranked (df : DataFrame num) j :
  length (ranked num_ltb parse argsort df j) = length (rows df).
Proof. by rewrite ranked_perm, length_fmap. Qed.

Lemma column_after_insert a (rs : list row) (vals : list (cell num)) :
  Forall (λ r, a < length r) rs → length vals = length rs →
  (λ r, r !!! a) <$> zip_with (λ r v, <[a := v]> r) rs vals = vals.
Proof.
  intros Hrs. revert vals. induction Hrs as [|r rs Hr _ IH]; intros [|v vals] Hlen;
    simpl in *; try done.
  rewrite list_lookup_total_insert_eq by done. f_equal. apply IH. lia.
Qed.

Lemma column_after_append k (rs : list row) (vals : list (cell num)) :
  Forall (λ r, length r = k) rs → length vals = length rs →
  (λ r, r !!! k) <$> zip_with (λ r v, r ++ [v]) rs vals = vals.
Proof.
  intros Hrs. revert vals. induction Hrs as [|r rs Hr _ IH]; intros [|v vals] Hlen;
    simpl in *; try done.
  rewrite (list_lookup_total_correct (r ++ [v]) k v).
  - f_equal. apply IH. lia.
  - rewrite lookup_app_r by lia. by rewrite Hr, Nat.sub_diag.
Qed.

Lemma getitem_set_column (d : DataFrame num) c vals :
  Forall (λ r, length r = length (columns d)) (rows d) →
  length vals = length (rows d) →
  getitem (set_column d c vals) c = Ok vals.
Proof.
  intros Hrect Hlen. unfold getitem, set_column, get_loc.
  destruct (list_find (λ x, x = c) (columns d)) as [[a y]|] eqn:Hfind; simpl.
  - rewrite Hfind. simpl. f_equal. apply column_after_insert; [|done].
    apply list_find_Some in Hfind as (Ha%lookup_lt_Some & _).
    eapply Forall_impl; [exact Hrect|]. simpl. intros; lia.
  - apply list_find_None in Hfind.
    assert (list_find (λ x, x = c) (columns d ++ [c]) = Some (length (columns d), c)) as ->.
    { apply list_find_Some. split_and!; [|done|].
      - rewrite lookup_app_r by lia. by rewrite Nat.sub_diag.
      - intros i y Hi Hlt. rewrite lookup_app_l in Hi by done.
        eapply Forall_lookup_1 in Hfind; [|exact Hi]. done. }
    simpl. f_equal. by apply column_after_append.
Qed.

Lemma allocate_students_success (w : world num) j :
  wf (df_obj w) →
  find_cgpa_col (columns (df_obj w)) = Some j →
  drop (j + 1) (columns (df_obj w)) ≠ [] →
  ∃ c, columns (df_obj w) !! j = Some c ∧
    allocate_students num_ltb parse argsort w
    = ({| df_obj := coerced parse (df_obj w) j;
          log := log w ++ success_log parse (df_obj w) j c |},
       Ok (allocation_of num_ltb parse argsort (df_obj w) j,
           fac_count_of num_ltb parse argsort (df_obj w) j)).
Proof.
  intros Hwf Hfind Hpref. destruct (find_cgpa_col_lookup _ _ Hfind) as [c Hc].
  exists c. split; [done|]. destruct w as [df lg]. simpl in *.
  pose proof Hwf as [Hnd Hrect].
  pose proof (wf_coerced df j Hwf) as [Hnd' Hrect'].
  assert (Hj : Forall (λ r : row, j < length r) (rows df)).
  { eapply Forall_impl; [exact Hrect|]. simpl. intros r ->. by eapply lookup_lt_Some. }
  unfold allocate_students, try_except, allocate_students_body.
  unfold mbind, M_bind, read_df. cbn beta iota. cbn [df_obj log].
  rewrite Hfind.
  rewrite decide_False by (by destruct (drop (j + 1) (columns df))).
  unfold lift, emit, write_df, py_index. rewrite Hc. cbn [df_obj log].
  rewrite (getitem_col df j c) by done.
  rewrite setitem_coerce by done.
  rewrite (getitem_col (coerced parse df j) j c) by done.
  assert (Hsort : sort_values_desc num_ltb argsort (coerced parse df j) c
                  = Ok {| columns := columns df;
                          rows := ranked num_ltb parse argsort df j |}).
  { unfold sort_values_desc. rewrite (getitem_col (coerced parse df j) j c) by done.
    cbn [mbind result_bind]. simpl rows. rewrite mapM_cell_key by done. done. }
  assert (Hloop : assign_loop (columns df) (drop (j + 1) (columns df))
                    (length (drop (j + 1) (columns df))) 0
                    (iterrows {| columns := columns df;
                                 rows := ranked num_ltb parse argsort df j |}) []
                  = Ok (assigned_of j (length (drop (j + 1) (columns df)))
                          (ranked num_ltb parse argsort df j))).
  { rewrite (assign_loop_ok _ _ j) ; try done.
    - cbn [app]. f_equal. apply assigned_iterrows; [done| |by apply ranked_rect].
      by destruct (drop (j + 1) (columns df)).
    - by destruct (drop (j + 1) (columns df)).
    - apply iterrows_rect. by apply ranked_rect. }
  assert (Hset : setitem {| columns := columns df;
                            rows := ranked num_ltb parse argsort df j |}
                   "AssignedFaculty"
                   (assigned_of j (length (drop (j + 1) (columns df)))
                      (ranked num_ltb parse argsort df j))
                 = Ok (allocation_of num_ltb parse argsort df j)).
  { unfold setitem. rewrite decide_True; [done|].
    unfold assigned_of. by rewrite length_imap. }
  assert (Hget : getitem (allocation_of num_ltb parse argsort df j) "AssignedFaculty"
                 = Ok (assigned_of j (length (drop (j + 1) (columns df)))
                         (ranked num_ltb parse argsort df j))).
  { unfold allocation_of. apply getitem_set_column; simpl.
    - by apply ranked_rect.
    - unfold assigned_of. by rewrite length_imap. }
  unfold success_log.
  destruct (existsb isna _) eqn:Hna; cbn [df_obj log mret M_ret];
    rewrite Hsort; cbn [columns rows]; rewrite Hloop, Hset, Hget;
    unfold fac_count_of; rewrite <- ?app_assoc; done.
Qed.
End AllocationFacts.

(** ** Counting *)

Section Counting.
Context {num : Type} `{!EqDecision num} `{!Numeric num}.

Local Abbreviation table := (list (cell num * nat)).

Lemma occurrences_snoc (v u : cell num) vals :
  occurrences v (vals ++ [u]) = occurrences v vals + (if decide (u = v) then 1 else 0).
Proof.
  unfold occurrences. rewrite filter_app, length_app. f_equal.
  rewrite filter_cons, filter_nil. by destruct (decide (u = v)).
Qed.


Lemma bump_keys (u : cell num) (T : table) :
  (bump u T).*1 = if decide (u ∈ T.*1) then T.*1 else T.*1 ++ [u].
Proof.
  induction T as [|[k c] T IH].
  - case_decide as Hin; [by apply elem_of_nil in Hin|done].
  - cbn [bump]. destruct (decide (k = u)) as [->|Hne].
    + rewrite decide_True; [done|]. rewrite fmap_cons. left.
    + rewrite !fmap_cons, IH. cbn [fst]. destruct (decide (u ∈ T.*1)) as [Hin|Hnin].
      * rewrite decide_True; [done|]. by right.
      * rewrite decide_False; [done|]. intros [?|?]%elem_of_cons; congruence.
Qed.

Lemma bump_NoDup (u : cell num) (T : table) : NoDup T.*1 → NoDup (bump u T).*1.
Proof.
  intros Hnd. rewrite bump_keys. destruct (decide (u ∈ T.*1)); [done|].
  apply NoDup_app. split_and!; [done| |apply NoDup_singleton].
  intros x Hx ->%list_elem_of_singleton. done.
Qed.

Lemma bump_sum (u : cell num) (T : table) :
  sum_list_with snd (bump u T) = S (sum_list_with snd T).
Proof.
  induction T as [|[k c] T IH]; simpl; [done|].
  destruct (decide (k = u)); simpl; [done|]. rewrite IH. lia.
Qed.

Lemma bump_elem (u : cell num) (T : table) k c :
  NoDup T.*1 →
  (k, c) ∈ bump u T ↔
    (k ≠ u ∧ (k, c) ∈ T) ∨
    (k = u ∧ ((∃ c', c = S c' ∧ (u, c') ∈ T) ∨ ((u ∉ T.*1) ∧ c = 1))).
Proof.
  induction T as [|[k0 c0] T IH]; intros Hnd.
  - cbn [bump]. rewrite list_elem_of_singleton. split.
    + intros [= -> ->]. right. split; [done|]. right. split; [apply not_elem_of_nil|done].
    + intros [[_ Hin]|[-> [(c' & _ & Hin)|[_ ->]]]]; [by apply elem_of_nil in Hin|by apply elem_of_nil in Hin|done].
  - rewrite fmap_cons in Hnd. apply NoDup_cons in Hnd as [Hk0 Hnd]. specialize (IH Hnd).
    assert (Hk0' : ∀ c', (k0, c') ∉ T).
    { intros c' Hin. apply Hk0. apply list_elem_of_fmap. by exists (k0, c'). }
    cbn [bump]. rewrite fmap_cons. cbn [fst].
    destruct (decide (k0 = u)) as [->|Hne].
    + rewrite !elem_of_cons. split.
      * intros [[= -> ->]|Hin].
        -- right. split; [done|]. left. exists c0. split; [done|by left].
        -- left. split; [|by right]. intros ->. by apply (Hk0' c).
      * intros [[Hku [[= ? ?]|Hin]]|[-> [(c' & -> & [[= ->]|Hin]%elem_of_cons)|[Hnin ->]]]].
        -- done.
        -- by right.
        -- by left.
        -- exfalso. by apply (Hk0' c').
        -- exfalso. apply Hnin. by left.
    + rewrite !elem_of_cons, IH. split.
      * intros [[= -> ->]|[[Hku Hin]|[-> [(c' & -> & Hin)|[Hnin ->]]]]].
        -- left. split; [done|by left].
        -- left. split; [done|by right].
        -- right. split; [done|]. left. exists c'. split; [done|by right].
        -- right. split; [done|]. right. split; [|done].
           intros [?|?]; [congruence|done].
      * intros [[Hku [[= -> ->]|Hin]]|[-> [(c' & -> & [[= ? ?]|Hin]%elem_of_cons)|[Hnin ->]]]].
        -- by left.
        -- right. left. done.
        -- done.
        -- right. right. split; [done|]. left. eauto.
        -- right. right. split; [done|]. right. split; [|done].
           intros Hin. apply Hnin. by right.
Qed.

Lemma counts_of_bump (u : cell num) (T : table) seen :
  counts_of T seen → counts_of (bump u T) (seen ++ [u]).
Proof.
  intros [Hnd Hinv]. split; [by apply bump_NoDup|].
  intros k c. rewrite bump_elem by done. rewrite occurrences_snoc.
  assert (Hkeys : u ∈ T.*1 ↔ 0 < occurrences u seen).
  { split.
    - intros ([k' c'] & -> & Hin)%list_elem_of_fmap. apply Hinv in Hin. simpl. lia.
    - intros Hpos. apply list_elem_of_fmap. exists (u, occurrences u seen).
      split; [done|]. by apply Hinv. }
  destruct (decide (u = k)) as [->|Hne].
  - split.
    + intros [[? _]|[_ [(c' & -> & Hin)|[Hnin ->]]]]; [done| |].
      * apply Hinv in Hin. lia.
      * rewrite Hkeys in Hnin. lia.
    + intros [-> _]. right. split; [done|].
      destruct (decide (0 < occurrences k seen)) as [Hpos|Hz].
      * left. exists (occurrences k seen). split; [lia|]. by apply Hinv.
      * right. rewrite Hkeys. lia.
  - rewrite Hinv. split.
    + intros [[_ [-> ?]]|[-> _]]; [lia|done].
    + intros [-> ?]. left. split; [congruence|lia].
Qed.

Lemma counts_of_foldl (vals : list (cell num)) (T : table) seen :
  counts_of T seen → counts_of (foldl (λ table v, bump v table) T vals) (seen ++ vals).
Proof.
  revert T seen. induction vals as [|v vals IH]; intros T seen HT; simpl.
  - by rewrite app_nil_r.
  - rewrite cons_middle, app_assoc. apply IH. by apply counts_of_bump.
Qed.

Lemma value_count_counts (vals : list (cell num)) : counts_of (value_count vals) vals.
Proof.
  apply (counts_of_foldl vals [] []). split; [constructor|].
  intros k c. split; [by intros ?%elem_of_nil|]. unfold occurrences. simpl. lia.
Qed.

Lemma value_count_sum (vals : list (cell num)) :
  sum_list_with snd (value_count vals) = length vals.
Proof.
  unfold value_count.
  assert (∀ T : table, sum_list_with snd (foldl (λ table v, bump v table) T vals)
                       = sum_list_with snd T + length vals) as ->; [|done].
  induction vals as [|v vals IH]; intros T; simpl; [lia|].
  rewrite IH, bump_sum. lia.
Qed.

End Counting.

(** ** Sorted orders *)

Lemma strongly_sorted_reverse {A} (R : relation A) (l : list A) :
  StronglySorted R l → StronglySorted (flip R) (reverse l).
Proof.
  induction 1 as [|a l Hl IH Ha]; [constructor|].
  rewrite reverse_cons. apply StronglySorted_app_2.
  - intros x1 x2 Hx1 ->%list_elem_of_singleton. rewrite elem_of_reverse in Hx1.
    unfold flip. rewrite Forall_forall in Ha. by apply Ha.
  - exact IH.
  - repeat constructor.
Qed.




Lemma keys_in_order_pairs {K} (ks : list K) (L : list (K * nat)) :
  Forall (λ ki, ks !! ki.2 = Some ki.1) L → keys_in_order ks L.*2 = L.*1.
Proof.
  unfold keys_in_order. induction 1 as [|[k i] L Hki _ IH]; [done|].
  csimpl in *. rewrite Hki. csimpl. by rewrite IH.
Qed.



Lemma perm_seq_bounded (p : list nat) n :
  p ≡ₚ seq 0 n → Forall (λ i, i < n) p.
Proof.
  intros Hp. rewrite Hp. apply Forall_seq. intros; lia.
Qed.





Lemma fmap_compress {A B} (f : A → B) (mask : list bool) (a : list A) :
  f <$> compress mask a = compress mask (f <$> a).
Proof.
  revert a. induction mask as [|m mask IH]; intros [|x a]; simpl; try done.
  destruct m; csimpl; by rewrite IH.
Qed.

Lemma take_idx_compress {A} `{!Inhabited A} (l : list A) (mask : list bool) :
  take_idx l (compress mask (seq 0 (length l))) = compress mask l.
Proof.
  unfold take_idx. rewrite fmap_compress. f_equal. apply take_idx_seq.
Qed.

Lemma take_idx_app {A} `{!Inhabited A} (l : list A) (p q : list nat) :
  take_idx l (p ++ q) = take_idx l p ++ take_idx l q.
Proof. unfold take_idx. apply fmap_app. Qed.

Lemma present_positions {K} (items : list (option K)) (k pos i : nat) :
  compress (negb <$> (key_isna <$> items)) (seq k (length items)) !! pos = Some i →
  k ≤ i ∧ items !! (i - k) = Some (omap id items !! pos).
Proof.
  revert k pos. induction items as [|[x|] items IH]; intros k pos; simpl.
  - by rewrite lookup_nil.
  - destruct pos as [|pos]; simpl.
    + intros [= <-]. by rewrite Nat.sub_diag.
    + intros [Hle Hi]%IH. split; [lia|].
      replace (i - k) with (S (i - S k)) by lia. done.
  - intros [Hle Hi]%IH. split; [lia|].
    replace (i - k) with (S (i - S k)) by lia. done.
Qed.

Lemma omap_reverse {A B} (f : A → option B) (l : list A) :
  omap f (reverse l) = reverse (omap f l).
Proof.
  induction l as [|x l IH]; [done|].
  rewrite reverse_cons, omap_app, IH. csimpl.
  destruct (f x); by rewrite ?reverse_cons, ?app_nil_r.
Qed.

Lemma strongly_sorted_omap {A B} (f : A → option B) (R : relation B) (l : list A) :
  StronglySorted R (omap f l) →
  StronglySorted (λ a b, ∀ x y, f a = Some x → f b = Some y → R x y) l.
Proof.
  induction l as [|a l IH]; [constructor|]. csimpl.
  destruct (f a) as [x|] eqn:Ha.
  - intros [Hx Hl]%StronglySorted_cons. constructor; [by apply IH|].
    apply Forall_forall. intros b Hb x' y Hx' Hy. simplify_eq.
    rewrite Forall_forall in Hx. apply Hx. apply list_elem_of_omap. eauto.
  - intros Hl. constructor; [by apply IH|]. apply Forall_forall. intros b _ x y ? ?. congruence.
Qed.

Lemma nargsort_desc_nan_last (argsort : argsort_fn) {K} (ltb : K → K → bool)
    (items : list (option K)) :
  argsort_contract argsort → strict_weak ltb →
  ∃ front,
    nargsort argsort ltb false items
    = front ++ compress (key_isna <$> items) (seq 0 (length items)) ∧
    front ≡ₚ compress (negb <$> (key_isna <$> items)) (seq 0 (length items)) ∧
    StronglySorted (λ a b, ltb a b = false) (omap (λ i, mjoin (items !! i)) front).
Proof.
  intros [Hperm Hsorted] Hsw. unfold nargsort.
  set (idx := seq 0 (length items)).
  set (nni := compress (negb <$> (key_isna <$> items)) idx).
  set (nn := omap id items).
  set (p := argsort K ltb (reverse nn)).
  assert (Hlen : length nni = length nn).
  { apply length_compress_present. apply length_seq. }
  assert (Hp : p ≡ₚ seq 0 (length nni)).
  { unfold p. by rewrite (Hperm _ _ _), length_reverse, Hlen. }
  exists (reverse (take_idx (reverse nni) p)). split_and!; [done| |].
  - rewrite reverse_Permutation. etrans; [|apply reverse_Permutation].
    apply take_idx_perm. by rewrite length_reverse.
  - rewrite omap_reverse. apply (strongly_sorted_reverse (λ a b, ltb b a = false)).
    assert (omap (λ i, mjoin (items !! i)) (take_idx (reverse nni) p)
            = keys_in_order (reverse nn) p) as ->; [|by apply Hsorted].
    unfold keys_in_order, take_idx.
    pose proof (perm_seq_bounded p _ Hp) as Hb. clearbody p. clear Hp.
    induction Hb as [|pos q Hpos _ IH]; [done|]. csimpl. rewrite IH.
    destruct (lookup_lt_is_Some_2 (reverse nni) pos) as [i Hi];
      [by rewrite length_reverse|].
    rewrite (list_lookup_total_correct _ _ _ Hi).
    rewrite reverse_lookup in Hi by done.
    apply (present_positions items 0) in Hi as [_ Hi]. rewrite Nat.sub_0_r in Hi.
    rewrite Hi. simpl. rewrite reverse_lookup by lia. by rewrite Hlen.
Qed.

Lemma compress_filter {A B} (f : A → option B) (l : list A) :
  compress (key_isna <$> (f <$> l)) l = filter (λ x, f x = None) l.
Proof.
  induction l as [|x l IH]; [done|]. csimpl. rewrite filter_cons.
  destruct (decide (f x = None)) as [Hn|Hn]; destruct (f x); simpl; try done;
    by rewrite IH.
Qed.


Lemma Qltb_lt x y : Qltb x y = true ↔ (x < y)%Q.
Proof.
  unfold Qltb. rewrite negb_true_iff, <- not_true_iff_false, Qle_bool_iff.
  split; [apply Qnot_le_lt|apply Qlt_not_le].
Qed.

Lemma Qltb_ge x y : Qltb x y = false ↔ (y <= x)%Q.
Proof. unfold Qltb. by rewrite negb_false_iff, Qle_bool_iff. Qed.

Lemma strict_weak_Q : strict_weak Qltb.
Proof.
  split.
  - intros a. apply Qltb_ge. apply Qle_refl.
  - intros a b c ?%Qltb_lt ?%Qltb_lt. apply Qltb_lt. by eapply Qlt_trans.
  - intros a b c ?%Qltb_ge ?%Qltb_ge. apply Qltb_ge. by eapply Qle_trans.
Qed.

(** ** The merge argsort meets the contract *)

Lemma zip_positions {K} (ks : list K) :
  Forall (λ ki, ks !! ki.2 = Some ki.1) (zip ks (seq 0 (length ks))).
Proof.
  apply Forall_lookup. intros i [k pos] [Hk Hpos]%lookup_zip_Some.
  apply lookup_seq in Hpos as [-> _]. done.
Qed.

Lemma merge_argsort_contract : argsort_contract merge_argsort.
Proof.
  split.
  - intros K ltb ks. unfold merge_argsort.
    rewrite merge_sort_Permutation. by rewrite snd_zip by (by rewrite length_seq).
  - intros K ltb ks [Hirr Htrans Hinc]. unfold merge_argsort.
    assert (Transitive (key_le ltb)).
    { intros a b c Hab Hbc. unfold key_le in *. by eapply Hinc. }
    assert (Total (key_le ltb)).
    { intros a b. unfold key_le.
      destruct (ltb b.1 a.1) eqn:Hba; [|by left]. right.
      destruct (ltb a.1 b.1) eqn:Hab; [|done].
      by rewrite <- (Hirr a.1), (Htrans a.1 b.1 a.1). }
    rewrite keys_in_order_pairs.
    + apply (StronglySorted_fmap fst (key_le ltb)); [done|].
      by apply StronglySorted_merge_sort.
    + rewrite merge_sort_Permutation. apply zip_positions.
Qed.

(** ** The count table *)

Section CountTable.
Context {num : Type} `{!EqDecision num} `{!Numeric num}.
Context (argsort : argsort_fn).

Lemma value_counts_perm (vals : list (cell num)) :
  argsort_permutes argsort → value_counts argsort vals ≡ₚ value_count vals.
Proof.
  intros Hperm. unfold value_counts. apply take_idx_perm.
  rewrite nargsort_perm by done. by rewrite !length_fmap.
Qed.


End CountTable.

(** ** Runs of [allocate_students] *)

Section Runs.
Context {num : Type} `{!EqDecision num} `{!Numeric num}.
Context (num_ltb : num → num → bool) (parse : string → option num).
Context (argsort : argsort_fn).

Local Abbreviation row := (list (cell num)).
Local Abbreviation run := (allocate_students num_ltb parse argsort).

Lemma run_no_cgpa (w : world num) :
  find_cgpa_col (columns (df_obj w)) = None →
  run w = ({| df_obj := df_obj w;
              log := log w ++ [ExceptionDuringAllocation (ValueError msg_no_cgpa)] |},
           Raise (ValueError msg_no_cgpa)).
Proof.
  intros Hfind. unfold allocate_students, try_except, allocate_students_body.
  unfold mbind, M_bind, read_df. cbn beta iota. by rewrite Hfind.
Qed.

Lemma run_no_pref (w : world num) j :
  find_cgpa_col (columns (df_obj w)) = Some j →
  drop (j + 1) (columns (df_obj w)) = [] →
  run w = ({| df_obj := df_obj w;
              log := log w ++ [ExceptionDuringAllocation (ValueError msg_no_pref)] |},
           Raise (ValueError msg_no_pref)).
Proof.
  intros Hfind Hpref. unfold allocate_students, try_except, allocate_students_body.
  unfold mbind, M_bind, read_df. cbn beta iota. rewrite Hfind, Hpref. done.
Qed.

Lemma run_accepted (w : world num) j n :
  wf (df_obj w) → argsort_permutes argsort → accepts (df_obj w) j n →
  ∃ c, columns (df_obj w) !! j = Some c ∧
    run w = ({| df_obj := coerced parse (df_obj w) j;
                log := log w ++ success_log parse (df_obj w) j c |},
             Ok (allocation_of num_ltb parse argsort (df_obj w) j,
                 fac_count_of num_ltb parse argsort (df_obj w) j)).
Proof.
  intros Hwf Hperm (Hfind & -> & Hn). apply allocate_students_success; try done.
  by destruct (drop (j + 1) (columns (df_obj w))).
Qed.

(** Every frame is refused for one of the two reasons, or accepted. *)
Lemma accepts_cases (df : DataFrame num) :
  find_cgpa_col (columns df) = None ∨
  (∃ j, find_cgpa_col (columns df) = Some j ∧ drop (j + 1) (columns df) = []) ∨
  (∃ j n, accepts df j n).
Proof.
  destruct (find_cgpa_col (columns df)) as [j|] eqn:Hfind; [|by left]. right.
  destruct (drop (j + 1) (columns df)) as [|c l] eqn:Hdrop.
  - left. eauto.
  - right. exists j, (length (c :: l)). unfold accepts. by rewrite Hfind, Hdrop.
Qed.


Lemma coerce_grade_lookup j (r : row) k :
  coerce_grade parse j r !! k
  = if decide (k = j) then to_numeric_cell parse <$> r !! k else r !! k.
Proof.
  unfold coerce_grade. destruct (decide (k = j)) as [->|Hne].
  - destruct (r !! j) as [x|] eqn:Hx.
    + rewrite list_lookup_insert_eq by (by eapply lookup_lt_Some). simpl.
      by rewrite (list_lookup_total_correct r j x).
    + rewrite list_insert_ge by (by apply lookup_ge_None). by rewrite Hx.
  - by rewrite list_lookup_insert_ne.
Qed.

Lemma to_numeric_cell_idemp (c : cell num) :
  to_numeric_cell parse (to_numeric_cell parse c) = to_numeric_cell parse c.
Proof. destruct c as [s|x|]; simpl; [destruct (parse s)|..]; done. Qed.

Lemma coerce_grade_idemp j (r : row) :
  coerce_grade parse j (coerce_grade parse j r) = coerce_grade parse j r.
Proof.
  apply list_eq. intros k. rewrite !coerce_grade_lookup.
  destruct (decide (k = j)); [|done].
  destruct (r !! k); simpl; [|done]. by rewrite to_numeric_cell_idemp.
Qed.

Lemma grade_coerce_grade j (r : row) :
  j < length r → grade parse j (coerce_grade parse j r) = grade parse j r.
Proof.
  intros Hj. unfold grade. rewrite coerce_grade_at by done.
  by rewrite to_numeric_cell_idemp.
Qed.

Lemma coerced_idemp (df : DataFrame num) j :
  coerced parse (coerced parse df j) j = coerced parse df j.
Proof.
  unfold coerced. simpl. f_equal. rewrite <- list_fmap_compose.
  apply list_fmap_ext. intros i r _. simpl. apply coerce_grade_idemp.
Qed.

Lemma ranked_coerced (df : DataFrame num) j :
  wf df → j < length (columns df) →
  ranked num_ltb parse argsort (coerced parse df j) j = ranked num_ltb parse argsort df j.
Proof.
  intros [_ Hrect] Hj. unfold ranked, coerced. simpl.
  rewrite <- !list_fmap_compose. f_equal.
  - apply list_fmap_ext. intros i r _. simpl. apply coerce_grade_idemp.
  - f_equal. apply Forall_fmap_ext_1. eapply Forall_impl; [exact Hrect|].
    intros r Hr. simpl in *. apply grade_coerce_grade. lia.
Qed.

Lemma nargsort_nil {K} (ltb : K → K → bool) (ascending : bool) :
  argsort_permutes argsort → nargsort argsort ltb ascending [] = [].
Proof.
  intros Hperm. apply Permutation_nil_r. by rewrite nargsort_perm.
Qed.


(** C9. A frame that passes both checks and has no data rows is allocated
    successfully: the allocation table has no rows and has the column
    [AssignedFaculty], and the count table has no rows. *)
Theorem allocate_empty_dataset (w : world num) (cgpa_idx n : nat) :
  wf (df_obj w) → argsort_permutes argsort → accepts (df_obj w) cgpa_idx n →
  rows (df_obj w) = [] →
  ∃ w' allocation_df fac_count,
    run w = (w', Ok (allocation_df, fac_count)) ∧
    rows allocation_df = [] ∧
    "AssignedFaculty" ∈ columns allocation_df ∧
    count_rows fac_count = [].
Proof.
  intros Hwf Hperm Hacc Hrows.
  destruct (run_accepted w cgpa_idx n Hwf Hperm Hacc) as (c & Hc & ->).
  eexists _, _, _. split; [done|].
  assert (Hranked : ranked num_ltb parse argsort (df_obj w) cgpa_idx = []).
  { unfold ranked. rewrite Hrows. simpl. by rewrite nargsort_nil. }
  unfold allocation_of, fac_count_of, set_column. rewrite Hranked. simpl.
  split_and!.
  - by destruct (list_find _ _) as [[a y]|].
  - destruct (list_find _ _) as [[a y]|] eqn:Hfind; simpl.
    + apply list_find_Some in Hfind as (Ha & -> & _).
      apply list_elem_of_lookup. eauto.
    + apply elem_of_app. right. left.
  - unfold value_counts. simpl. by rewrite nargsort_nil.
Qed.

(** C6, as the code has it. [allocate_students] works on the caller's own
    frame: when the frame is accepted, the caller finds the grade column
    replaced by its numeric coercion afterwards, every other cell, the
    columns and the row order being as before; when the call fails the frame
    is as before. *)
Theorem caller_frame_after_allocate (w : world num) :
  wf (df_obj w) → argsort_permutes argsort →
  let df := df_obj w in
  let df' := df_obj (run w).1 in
  columns df' = columns df ∧
  length (rows df') = length (rows df) ∧
  ((∃ e, (run w).2 = Raise e) → df' = df) ∧
  (∀ cgpa_idx n, accepts df cgpa_idx n →
     ∀ i r, rows df !! i = Some r →
       ∃ r', rows df' !! i = Some r' ∧
         ∀ k, r' !! k = if decide (k = cgpa_idx)
                        then to_numeric_cell parse <$> r !! k
                        else r !! k).
Proof.
  intros Hwf Hperm df df'. subst df df'.
  destruct (accepts_cases (df_obj w)) as [Hnone|[(j & Hfind & Hdrop)|(j & n & Hacc)]].
  - rewrite (run_no_cgpa w Hnone). simpl. split_and!; try done.
    intros j n (Hfind & _). congruence.
  - rewrite (run_no_pref w j Hfind Hdrop). simpl. split_and!; try done.
    intros j' n (Hfind' & -> & Hn). exfalso. apply Hn.
    assert (j' = j) as -> by congruence. by rewrite Hdrop.
  - destruct (run_accepted w j n Hwf Hperm Hacc) as (c & Hc & ->). simpl.
    split_and!; [done|by rewrite length_fmap|by intros [e ?]|].
    intros j' n' Hacc' i r Hr.
    assert (j' = j) as -> by (destruct Hacc, Hacc'; congruence).
    exists (coerce_grade parse j r). split.
    + by rewrite list_lookup_fmap, Hr.
    + intros k. apply coerce_grade_lookup.
Qed.

(** C7. Calling [allocate_students] a second time on the same frame object
    gives the same outcome as the first call: the same two tables, or the
    same exception; and the second call leaves the frame as the first call
    left it. *)
Theorem allocate_twice_same_tables (w : world num) :
  wf (df_obj w) → argsort_permutes argsort →
  (run (run w).1).2 = (run w).2 ∧
  df_obj (run (run w).1).1 = df_obj (run w).1.
Proof.
  intros Hwf Hperm.
  destruct (accepts_cases (df_obj w)) as [Hnone|[(j & Hfind & Hdrop)|(j & n & Hacc)]].
  - rewrite (run_no_cgpa w Hnone). simpl. by rewrite run_no_cgpa.
  - rewrite (run_no_pref w j Hfind Hdrop). simpl. by rewrite (run_no_pref _ j).
  - destruct (run_accepted w j n Hwf Hperm Hacc) as (c & Hc & ->). simpl.
    set (w1 := {| df_obj := coerced parse (df_obj w) j; log := _ |}).
    destruct (run_accepted w1 j n) as (c' & Hc' & ->); [by apply wf_coerced|done|done|].
    simpl. rewrite coerced_idemp. split; [|done].
    unfold allocation_of, fac_count_of. simpl.
    rewrite ranked_coerced by (done || by eapply lookup_lt_Some). done.
Qed.

End Runs.

(** ** The ranking *)

Section Ranked.
Context {num : Type} `{!EqDecision num} `{!Numeric num}.
Context (num_ltb : num → num → bool) (parse : string → option num).
Context (argsort : argsort_fn).

(** What holds of the ranking whatever the sort does with ties: the rows
    with a missing grade come last, in upload order, and before them no row
    has a grade greater than that of an earlier row. *)
Lemma ranked_descending_missing_last (df : DataFrame num) j :
  argsort_contract argsort → strict_weak num_ltb → wf df → j < length (columns df) →
  ∃ present,
    ranked num_ltb parse argsort df j
    = present ++ filter (λ r, grade parse j r = None) (coerce_grade parse j <$> rows df) ∧
    Forall (λ r, is_Some (grade parse j r)) present ∧
    StronglySorted
      (λ r1 r2, ∀ x1 x2, grade parse j r1 = Some x1 → grade parse j r2 = Some x2 →
                         num_ltb x1 x2 = false)
      present.
Proof.
  intros Hc Hsw [_ Hrect] Hj.
  set (rows' := coerce_grade parse j <$> rows df).
  set (items := grade parse j <$> rows df).
  assert (Hitems : items = grade parse j <$> rows').
  { unfold items, rows'. rewrite <- list_fmap_compose. apply Forall_fmap_ext_1.
    eapply Forall_impl; [exact Hrect|]. intros r Hr. simpl in *.
    symmetry. apply grade_coerce_grade. lia. }
  destruct (nargsort_desc_nan_last argsort num_ltb items Hc Hsw)
    as (front & Hix & Hfront & Hs).
  assert (Hlen : length items = length rows') by (unfold items, rows'; by rewrite !length_fmap).
  assert (Hkeys : ∀ i, mjoin (items !! i) = grade parse j (rows' !!! i) ∨ length rows' ≤ i).
  { intros i. destruct (rows' !! i) as [r|] eqn:Hr.
    - left. rewrite Hitems, list_lookup_fmap, Hr. simpl.
      by rewrite (list_lookup_total_correct _ _ _ Hr).
    - right. by apply lookup_ge_None. }
  assert (Hb : Forall (λ i, i < length rows') front).
  { rewrite Hfront. apply Forall_forall. intros i Hi.
    apply list_elem_of_lookup in Hi as [pos Hi].
    assert (i ∈ seq 0 (length items)) as Hin%elem_of_seq; [|lia].
    eapply elem_of_Permutation_proper; [symmetry; apply (compress_split (key_isna <$> items));
      by rewrite length_fmap, length_seq|].
    apply elem_of_app. left. apply list_elem_of_lookup. eauto. }
  exists (take_idx rows' front). unfold ranked. fold rows' items.
  rewrite Hix, take_idx_app, Hlen, take_idx_compress, Hitems, compress_filter.
  split_and!; [done| |].
  - unfold take_idx. apply Forall_fmap. rewrite Hfront. apply Forall_lookup.
    intros pos i Hi. simpl.
    destruct (lookup_lt_is_Some_2 (omap id items) pos) as [k Hk].
    { rewrite <- (length_compress_present items (seq 0 (length items)))
        by apply length_seq. by eapply lookup_lt_Some. }
    apply (present_positions items 0) in Hi as [_ Hi]. rewrite Nat.sub_0_r, Hk in Hi.
    destruct (Hkeys i) as [<-|Hge].
    + rewrite Hi. simpl. eauto.
    + apply lookup_lt_Some in Hi. lia.
  - apply strongly_sorted_omap.
    assert (omap (grade parse j) (take_idx rows' front)
            = omap (λ i, mjoin (items !! i)) front) as ->; [|done].
    clear Hix Hfront Hs. unfold take_idx.
    induction Hb as [|i q Hi _ IH]; [done|]. csimpl. rewrite IH.
    destruct (Hkeys i) as [->|?]; [done|lia].
Qed.
End Ranked.

(** ** The example frames are well formed *)

Lemma wf_df_e2e : wf df_e2e.
Proof. split; [by apply (bool_decide_unpack _)|repeat constructor]. Qed.

Lemma wf_df_text : wf df_text.
Proof. split; [by apply (bool_decide_unpack _)|repeat constructor]. Qed.

Lemma wf_df_empty : wf df_empty.
Proof. split; [by apply (bool_decide_unpack _)|repeat constructor]. Qed.

Lemma accepts_df_e2e : accepts df_e2e 1 2.
Proof. by split_and!. Qed.

Lemma accepts_df_empty : accepts df_empty 1 2.
Proof. by split_and!. Qed.


(** C9 at a header without rows. *)
Lemma allocate_empty_dataset_witness :
  ∃ w' allocation_df fac_count,
    allocate_students Qltb parse_decimal merge_argsort (fresh df_empty)
    = (w', Ok (allocation_df, fac_count)) ∧
    rows allocation_df = [] ∧
    "AssignedFaculty" ∈ columns allocation_df ∧
    count_rows fac_count = [].
Proof.
  apply (allocate_empty_dataset Qltb parse_decimal merge_argsort (fresh df_empty) 1 2).
  - exact wf_df_empty.
  - exact (argsort_perm _ merge_argsort_contract).
  - exact accepts_df_empty.
  - reflexivity.
Defined.

(** C6, as the code has it, at a frame with a text grade column. *)
Lemma caller_frame_after_allocate_witness :
  let df := df_text in
  let df' := df_obj (allocate_students Qltb parse_decimal merge_argsort (fresh df_text)).1 in
  columns df' = columns df ∧
  length (rows df') = length (rows df) ∧
  ((∃ e, (allocate_students Qltb parse_decimal merge_argsort (fresh df_text)).2 = Raise e) →
     df' = df) ∧
  (∀ cgpa_idx n, accepts df cgpa_idx n →
     ∀ i r, rows df !! i = Some r →
       ∃ r', rows df' !! i = Some r' ∧
         ∀ k, r' !! k = if decide (k = cgpa_idx)
                        then to_numeric_cell parse_decimal <$> r !! k
                        else r !! k).
Proof.
  apply (caller_frame_after_allocate Qltb parse_decimal merge_argsort (fresh df_text)).
  - exact wf_df_text.
  - exact (argsort_perm _ merge_argsort_contract).
Defined.

(** C7 at a frame whose grade column the first call rewrites. *)
Lemma allocate_twice_same_tables_witness :
  let run := allocate_students Qltb parse_decimal merge_argsort in
  (run (run (fresh df_text)).1).2 = (run (fresh df_text)).2 ∧
  df_obj (run (run (fresh df_text)).1).1 = df_obj (run (fresh df_text)).1.
Proof.
  apply (allocate_twice_same_tables Qltb parse_decimal merge_argsort (fresh df_text)).
  - exact wf_df_text.
  - exact (argsort_perm _ merge_argsort_contract).
Defined.

(** C6, as stated, fails: after the call the caller's frame [df_text] holds
    numbers and NaN where it held text. *)
Lemma caller_frame_changed :
  df_obj (allocate_students Qltb parse_decimal merge_argsort (fresh df_text)).1 ≠ df_text ∧
  rows (df_obj (allocate_students Qltb parse_decimal merge_argsort (fresh df_text)).1)
  = [ [CStr "A"; CNum (17 # 2)%Q; CStr "FacX"];
      [CStr "B"; CNaN; CStr "FacY"] ].
Proof. split; [|reflexivity]. intros H. vm_compute in H. discriminate. Qed.

(** ** Dtypes of the rows *)





Section Dtypes.
Context {num : Type} `{!Numeric num}.






End Dtypes.

(** ** The two tables *)

Section Tables.
Context {num : Type} `{!EqDecision num} `{!Numeric num}.
Context (num_ltb : num → num → bool) (parse : string → option num).
Context (argsort : argsort_fn).

Local Abbreviation row := (list (cell num)).
Local Abbreviation run := (allocate_students num_ltb parse argsort).
Local Abbreviation ranked_rows := (ranked num_ltb parse argsort).


Lemma length_allocation (df : DataFrame num) j :
  argsort_permutes argsort →
  length (rows (allocation_of num_ltb parse argsort df j)) = length (rows df).
Proof.
  intros Hperm. unfold allocation_of, set_column, assigned_of.
  destruct (list_find _ _) as [[a y]|]; simpl;
    rewrite length_zip_with, length_imap, length_ranked by done; lia.
Qed.




(** C10, for uploads without a column named [AssignedFaculty]. The
    allocation table has the input's columns followed by [AssignedFaculty];
    without that last cell, its rows are the input rows, each exactly once,
    with the grade cell replaced by its numeric coercion and every other
    cell as in the input. *)
Theorem allocation_table_rows (w : world num) (cgpa_idx n : nat) :
  wf (df_obj w) → argsort_permutes argsort → accepts (df_obj w) cgpa_idx n →
  "AssignedFaculty" ∉ columns (df_obj w) →
  ∃ w' allocation_df fac_count,
    run w = (w', Ok (allocation_df, fac_count)) ∧
    columns allocation_df = columns (df_obj w) ++ ["AssignedFaculty"] ∧
    length (rows allocation_df) = length (rows (df_obj w)) ∧
    Forall (λ r, length r = S (length (columns (df_obj w)))) (rows allocation_df) ∧
    take (length (columns (df_obj w))) <$> rows allocation_df
      ≡ₚ coerce_grade parse cgpa_idx <$> rows (df_obj w) ∧
    (∀ r k, coerce_grade parse cgpa_idx r !! k
            = if decide (k = cgpa_idx) then to_numeric_cell parse <$> r !! k
              else r !! k).
Proof.
  intros Hwf Hperm Hacc Hfresh.
  destruct (run_accepted num_ltb parse argsort w cgpa_idx n Hwf Hperm Hacc) as (c & _ & ->).
  eexists _, _, _. split; [done|].
  pose proof (ranked_rect num_ltb parse argsort Hperm (df_obj w) cgpa_idx Hwf) as Hrr.
  pose proof (length_allocation (df_obj w) cgpa_idx Hperm) as Hlen.
  revert Hlen. unfold allocation_of, set_column. cbn [columns rows].
  assert (list_find (λ x, x = "AssignedFaculty") (columns (df_obj w)) = None) as ->.
  { apply list_find_None. apply Forall_forall. by intros x Hx ->. }
  cbn [columns rows]. intros Hlen.
  set (rs := ranked_rows (df_obj w) cgpa_idx) in *.
  set (vals := assigned_of _ _ rs) in *.
  assert (Hvals : length vals = length rs) by (unfold vals, assigned_of; by rewrite length_imap).
  split_and!; [done|done| | |by intros; apply coerce_grade_lookup].
  - apply Forall_lookup. intros i r (r0 & v & -> & Hr0 & _)%lookup_zip_with_Some.
    rewrite Forall_lookup in Hrr. rewrite length_app, (Hrr i r0 Hr0). simpl. lia.
  - rewrite <- (ranked_perm num_ltb parse argsort Hperm (df_obj w) cgpa_idx). fold rs.
    assert (take (length (columns (df_obj w))) <$> zip_with (λ r v, r ++ [v]) rs vals = rs)
      as ->; [|done].
    clearbody vals. clear Hlen. revert vals Hvals.
    induction Hrr as [|r rs' Hr _ IH]; intros [|v vals] Hvals; simpl in *; try done.
    rewrite take_app_length' by done. f_equal. apply IH. lia.
Qed.

End Tables.

(** ** The end-to-end scenario *)

Lemma perm_of_three (p : list nat) :
  p ≡ₚ [0; 1; 2] →
  p = [0; 1; 2] ∨ p = [0; 2; 1] ∨ p = [1; 0; 2] ∨
  p = [1; 2; 0] ∨ p = [2; 0; 1] ∨ p = [2; 1; 0].
Proof.
  intros Hp. symmetry in Hp. apply permutations_Permutation in Hp.
  change (permutations [0; 1; 2])
    with [[0; 1; 2]; [1; 0; 2]; [1; 2; 0]; [0; 2; 1]; [2; 0; 1]; [2; 1; 0]] in Hp.
  repeat (apply elem_of_cons in Hp as [->|Hp]); try by apply elem_of_nil in Hp.
  all: naive_solver.
Qed.

Lemma e2e_grade_order (argsort : argsort_fn) :
  argsort_contract argsort →
  nargsort argsort Qltb false [Some 9%Q; Some 7%Q; Some (17 # 2)%Q] = [0; 2; 1].
Proof.
  intros [Hperm Hsorted]. unfold nargsort. cbn -[reverse take_idx].
  change (reverse [9%Q; 7%Q; (17 # 2)%Q]) with [(17 # 2)%Q; 7%Q; 9%Q].
  pose proof (Hperm Q Qltb [(17 # 2)%Q; 7%Q; 9%Q]) as Hp.
  pose proof (Hsorted Q Qltb [(17 # 2)%Q; 7%Q; 9%Q] strict_weak_Q) as Hs.
  destruct (perm_of_three _ Hp) as [Hq|[Hq|[Hq|[Hq|[Hq|Hq]]]]];
    rewrite Hq in Hs |- *; try reflexivity; exfalso; clear Hperm Hsorted Hp;
    unfold keys_in_order in Hs; cbn [omap list_omap lookup list_lookup] in Hs;
    repeat match goal with
      | H : StronglySorted _ (_ :: _) |- _ => apply StronglySorted_cons in H as [? ?]
      | H : Forall _ (_ :: _) |- _ =>
          let Hd := fresh "Hd" in
          apply Forall_cons in H as [Hd ?]; try (vm_compute in Hd; discriminate Hd)
      end.
Qed.

(** C8, with the values the code computes. For the frame [df_e2e] the rows
    are ranked A, C, B; A is assigned [FacX] (its [Pref1]), C is assigned
    [FacZ] (its [Pref2]) and B is assigned [FacY] (its [Pref1]); the count
    table has the three rows [FacX], [FacZ], [FacY], each with count 1. *)
Theorem end_to_end_scenario (parse : string → option Q) (argsort : argsort_fn) :
  argsort_contract argsort →
  ∃ w' allocation_df fac_count,
    allocate_students Qltb parse argsort (fresh df_e2e) = (w', Ok (allocation_df, fac_count)) ∧
    columns allocation_df = ["Name"; "CGPA"; "Pref1"; "Pref2"; "AssignedFaculty"] ∧
    rows allocation_df
    = [ [CStr "A"; CNum 9%Q; CStr "FacX"; CStr "FacY"; CStr "FacX"];
        [CStr "C"; CNum (17 # 2)%Q; CStr "FacX"; CStr "FacZ"; CStr "FacZ"];
        [CStr "B"; CNum 7%Q; CStr "FacY"; CStr "FacX"; CStr "FacY"] ] ∧
    count_rows fac_count ≡ₚ [(CStr "FacX", 1); (CStr "FacZ", 1); (CStr "FacY", 1)].
Proof.
  intros Hc. pose proof (argsort_perm _ Hc) as Hperm.
  destruct (run_accepted Qltb parse argsort (fresh df_e2e) 1 2 wf_df_e2e Hperm accepts_df_e2e)
    as (c & _ & ->).
  eexists _, _, _. split; [done|].
  assert (Hranked : ranked Qltb parse argsort df_e2e 1
                    = [ [CStr "A"; CNum 9%Q; CStr "FacX"; CStr "FacY"];
                        [CStr "C"; CNum (17 # 2)%Q; CStr "FacX"; CStr "FacZ"];
                        [CStr "B"; CNum 7%Q; CStr "FacY"; CStr "FacX"] ]).
  { unfold ranked.
    change (grade parse 1 <$> rows df_e2e) with [Some 9%Q; Some 7%Q; Some (17 # 2)%Q].
    by rewrite e2e_grade_order. }
  cbn [df_obj fresh]. unfold allocation_of, fac_count_of. rewrite Hranked.
  split_and!; [reflexivity|reflexivity|].
  cbn [count_rows]. by rewrite value_counts_perm.
Qed.

(** C8, with the values the code computes, for the merge argsort. *)
Lemma end_to_end_scenario_witness :
  ∃ w' allocation_df fac_count,
    allocate_students Qltb parse_decimal merge_argsort (fresh df_e2e)
    = (w', Ok (allocation_df, fac_count)) ∧
    columns allocation_df = ["Name"; "CGPA"; "Pref1"; "Pref2"; "AssignedFaculty"] ∧
    rows allocation_df
    = [ [CStr "A"; CNum 9%Q; CStr "FacX"; CStr "FacY"; CStr "FacX"];
        [CStr "C"; CNum (17 # 2)%Q; CStr "FacX"; CStr "FacZ"; CStr "FacZ"];
        [CStr "B"; CNum 7%Q; CStr "FacY"; CStr "FacX"; CStr "FacY"] ] ∧
    count_rows fac_count ≡ₚ [(CStr "FacX", 1); (CStr "FacZ", 1); (CStr "FacY", 1)].
Proof. apply (end_to_end_scenario parse_decimal merge_argsort merge_argsort_contract). Defined.

(** C8, as stated, fails: on [df_e2e] the code does not assign [FacY] to C
    and [FacX] to B, and the count table is not [FacX] 2, [FacY] 1. *)
Lemma end_to_end_as_stated_fails :
  ¬ ∃ w' allocation_df fac_count,
      allocate_students Qltb parse_decimal merge_argsort (fresh df_e2e)
      = (w', Ok (allocation_df, fac_count)) ∧
      getitem allocation_df "Name" = Ok [CStr "A"; CStr "C"; CStr "B"] ∧
      getitem allocation_df "AssignedFaculty" = Ok [CStr "FacX"; CStr "FacY"; CStr "FacX"] ∧
      count_rows fac_count = [(CStr "FacX", 2); (CStr "FacY", 1)].
Proof.
  intros (w' & allocation_df & fac_count & Hrun & _ & _ & Hcount).
  vm_compute in Hrun. injection Hrun as <- <- <-. discriminate Hcount.
Qed.

(** ** Ties, and a column that is already there *)

Lemma omap_fmap_ext_in {A A' B} (f : A' → option B) (g : A → option B) (h : A → A')
    (l : list A) :
  (∀ x, x ∈ l → f (h x) = g x) → omap f (h <$> l) = omap g l.
Proof.
  induction l as [|x l IH]; intros Hfg; [done|]. csimpl.
  rewrite (Hfg x) by left. rewrite IH; [done|]. intros y Hy. apply Hfg. by right.
Qed.

Lemma fmap_mirror_seq (n : nat) : (λ i, n - 1 - i) <$> seq 0 n = reverse (seq 0 n).
Proof.
  apply list_eq. intros i. rewrite list_lookup_fmap.
  destruct (decide (i < n)) as [Hi|Hi].
  - rewrite reverse_lookup by (by rewrite length_seq).
    rewrite length_seq, !lookup_seq_lt by lia. simpl. f_equal. lia.
  - rewrite !lookup_ge_None_2; [done|rewrite length_reverse|]; rewrite length_seq; lia.
Qed.

(** The argsort that reverses ties meets NumPy's contract as well. *)
Lemma argsort_ties_descending_contract : argsort_contract argsort_ties_descending.
Proof.
  pose proof merge_argsort_contract as [Hperm Hsorted].
  assert (Hp : argsort_permutes argsort_ties_descending).
  { intros K ltb ks. unfold argsort_ties_descending.
    rewrite (Hperm K ltb (reverse ks)), length_reverse, fmap_mirror_seq.
    apply reverse_Permutation. }
  split; [exact Hp|].
  intros K ltb ks Hsw. unfold argsort_ties_descending, keys_in_order.
  rewrite (omap_fmap_ext_in _ (λ i, reverse ks !! i)); [by apply Hsorted|].
  intros i Hi. simpl.
  assert (i < length ks) as Hlt.
  { rewrite (Hperm K ltb (reverse ks)), length_reverse in Hi.
    apply elem_of_seq in Hi. lia. }
  rewrite reverse_lookup by done. f_equal. lia.
Qed.

(** C2, the code at the failing input. NumPy's quicksort, which
    [sort_values] runs, is not stable.  For the frame [df_tied], where A and B
    are tied at 8 and C and D at 9, [nargsort] hands it the keys 9, 9, 8, 8;
    where it answers [3; 2; 1; 0] (the answer of NumPy's vectorised quicksort
    kernel on these keys, which the contract allows), the allocation table
    lists the students as D, C, B, A: each pair of tied students in the
    reverse of the upload order.  A stable sort lists them as C, D, A, B. *)
Theorem tied_rows_reordered (parse : string → option Q) (argsort : argsort_fn) :
  argsort Q Qltb [9%Q; 9%Q; 8%Q; 8%Q] = [3; 2; 1; 0] →
  ∃ w' allocation_df fac_count,
    allocate_students Qltb parse argsort (fresh df_tied)
    = (w', Ok (allocation_df, fac_count)) ∧
    getitem df_tied "Name" = Ok [CStr "A"; CStr "B"; CStr "C"; CStr "D"] ∧
    getitem df_tied "CGPA" = Ok [CNum 8%Q; CNum 8%Q; CNum 9%Q; CNum 9%Q] ∧
    getitem allocation_df "Name" = Ok [CStr "D"; CStr "C"; CStr "B"; CStr "A"] ∧
    getitem allocation_df "CGPA" = Ok [CNum 9%Q; CNum 9%Q; CNum 8%Q; CNum 8%Q] ∧
    getitem allocation_df "AssignedFaculty"
    = Ok [CStr "FacD"; CStr "FacC"; CStr "FacB"; CStr "FacA"] ∧
    getitem (allocation_of Qltb parse merge_argsort df_tied 1) "Name"
    = Ok [CStr "C"; CStr "D"; CStr "A"; CStr "B"].
Proof.
  intros Hsort. vm_compute in Hsort.
  destruct (allocate_students Qltb parse argsort (fresh df_tied)) as [w' [[a f]|e]] eqn:Hrun;
    vm_compute in Hrun; rewrite Hsort in Hrun; vm_compute in Hrun.
  - injection Hrun as <- <- <-. eexists _, _, _. split; [reflexivity|].
    split_and!; vm_compute; reflexivity.
  - discriminate Hrun.
Qed.

(** C2 at the failing input, for the argsort that reverses ties. *)
Lemma tied_rows_reordered_witness :
  ∃ w' allocation_df fac_count,
    allocate_students Qltb parse_decimal argsort_ties_descending (fresh df_tied)
    = (w', Ok (allocation_df, fac_count)) ∧
    getitem df_tied "Name" = Ok [CStr "A"; CStr "B"; CStr "C"; CStr "D"] ∧
    getitem df_tied "CGPA" = Ok [CNum 8%Q; CNum 8%Q; CNum 9%Q; CNum 9%Q] ∧
    getitem allocation_df "Name" = Ok [CStr "D"; CStr "C"; CStr "B"; CStr "A"] ∧
    getitem allocation_df "CGPA" = Ok [CNum 9%Q; CNum 9%Q; CNum 8%Q; CNum 8%Q] ∧
    getitem allocation_df "AssignedFaculty"
    = Ok [CStr "FacD"; CStr "FacC"; CStr "FacB"; CStr "FacA"] ∧
    getitem (allocation_of Qltb parse_decimal merge_argsort df_tied 1) "Name"
    = Ok [CStr "C"; CStr "D"; CStr "A"; CStr "B"].
Proof.
  apply (tied_rows_reordered parse_decimal argsort_ties_descending).
  vm_compute. reflexivity.
Defined.

(** C10, as stated, fails: for the upload [df_clash], which has a column
    named [AssignedFaculty], no column is added and the cell [old] of that
    column is overwritten. *)
Lemma existing_column_overwritten :
  ¬ ∃ w' allocation_df fac_count,
      allocate_students Qltb parse_decimal merge_argsort (fresh df_clash)
      = (w', Ok (allocation_df, fac_count)) ∧
      columns allocation_df = columns df_clash ++ ["AssignedFaculty"] ∧
      take (length (columns df_clash)) <$> rows allocation_df
        ≡ₚ coerce_grade parse_decimal 1 <$> rows df_clash.
Proof.
  intros (w' & allocation_df & fac_count & Hrun & Hcols & _).
  vm_compute in Hrun. injection Hrun as <- <- <-. discriminate Hcols.
Qed.

(** ** The theorems at the end-to-end frame *)

Lemma fresh_column_df_e2e : "AssignedFaculty" ∉ columns df_e2e.
Proof. by apply (bool_decide_unpack _). Qed.




(** C10, for uploads without a column named [AssignedFaculty], at the
    end-to-end frame. *)
Lemma allocation_table_rows_witness :
  ∃ w' allocation_df fac_count,
    allocate_students Qltb parse_decimal merge_argsort (fresh df_e2e)
    = (w', Ok (allocation_df, fac_count)) ∧
    columns allocation_df = columns df_e2e ++ ["AssignedFaculty"] ∧
    length (rows allocation_df) = length (rows df_e2e) ∧
    Forall (λ r, length r = S (length (columns df_e2e))) (rows allocation_df) ∧
    take (length (columns df_e2e)) <$> rows allocation_df
      ≡ₚ coerce_grade parse_decimal 1 <$> rows df_e2e ∧
    (∀ r k, coerce_grade parse_decimal 1 r !! k
            = if decide (k = 1) then to_numeric_cell parse_decimal <$> r !! k
              else r !! k).
Proof.
  apply (allocation_table_rows Qltb parse_decimal merge_argsort (fresh df_e2e) 1 2).
  - exact wf_df_e2e.
  - exact (argsort_perm _ merge_argsort_contract).
  - exact accepts_df_e2e.
  - exact fresh_column_df_e2e.
Defined.

(** * Part III: further properties of the code *)

(** ** The engine and the log *)

Section EngineLog.
Context {num : Type} `{!EqDecision num} `{!Numeric num}.
Context (num_ltb : num → num → bool) (parse : string → option num).
Context (argsort : argsort_fn).

Local Abbreviation run := (allocate_students num_ltb parse argsort).

(** X6. [allocate_students] only appends to the log: what it returns, what it
    does to the frame and the records it adds do not depend on the records
    logged before the call. *)
Theorem allocate_appends_to_log (w : world num) :
  run w = ({| df_obj := df_obj (run (fresh (df_obj w))).1;
              log := log w ++ log (run (fresh (df_obj w))).1 |},
           (run (fresh (df_obj w))).2).
Proof.
  destruct w as [df lg].
  unfold allocate_students, try_except, allocate_students_body, fresh.
  unfold mbind, M_bind, read_df, lift, emit, write_df, raise, mret, M_ret.
  cbn [df_obj log].
  destruct (find_cgpa_col (columns df)) as [cgpa_idx|]; [|by cbn].
  destruct (decide (length (drop (cgpa_idx + 1) (columns df)) = 0)); [by cbn|].
  destruct (py_index _ _) as [cgpa_col|e]; [|by cbn]. cbn [df_obj log].
  destruct (getitem df cgpa_col) as [series|e]; [|by cbn; rewrite <- ?app_assoc].
  destruct (setitem df cgpa_col _) as [df'|e]; [|by cbn; rewrite <- ?app_assoc].
  cbn [df_obj log].
  destruct (getitem df' cgpa_col) as [series'|e]; [|by cbn; rewrite <- ?app_assoc].
  destruct (existsb isna series'); cbn [df_obj log];
    destruct (sort_values_desc _ _ _ _) as [df_sorted|e];
    try (by cbn; rewrite <- ?app_assoc);
    destruct (assign_loop _ _ _ _ _ _) as [assigned|e];
    try (by cbn; rewrite <- ?app_assoc);
    destruct (setitem df_sorted _ _) as [allocation_df|e];
    try (by cbn; rewrite <- ?app_assoc);
    destruct (getitem allocation_df _) as [col|e];
    by cbn; rewrite <- ?app_assoc.
Qed.

End EngineLog.

(** ** Detection does not look at case *)

Lemma find_cgpa_col_from_lower i (cols cols' : list string) :
  Text.lower <$> cols = Text.lower <$> cols' →
  find_cgpa_col_from i cols = find_cgpa_col_from i cols'.
Proof.
  revert i cols'. induction cols as [|c cols IH]; intros i [|c' cols'] Heq; try done.
  rewrite !fmap_cons in Heq. injection Heq as Hc Hcols. simpl.
  rewrite Hc. destruct (Text.contains _ _); [done|]. by apply IH.
Qed.

(** X7. Two headers that agree up to the case of their letters have their grade
    column at the same position, or both have none. *)
Theorem find_cgpa_col_ignores_case (cols cols' : list string) :
  Text.lower <$> cols = Text.lower <$> cols' →
  find_cgpa_col cols = find_cgpa_col cols'.
Proof. apply find_cgpa_col_from_lower. Qed.

Lemma find_cgpa_col_ignores_case_witness :
  find_cgpa_col ["Roll No"; "Cgpa"; "pref1"] = find_cgpa_col ["ROLL NO"; "CGPA"; "Pref1"].
Proof. by apply find_cgpa_col_ignores_case. Defined.

(** ** More on successful runs *)

Section EngineMore.
Context {num : Type} `{!EqDecision num} `{!Numeric num}.
Context (num_ltb : num → num → bool) (parse : string → option num).
Context (argsort : argsort_fn).

Local Abbreviation row := (list (cell num)).
Local Abbreviation run := (allocate_students num_ltb parse argsort).
Local Abbreviation ranked_rows := (ranked num_ltb parse argsort).

Lemma to_numeric_cell_no_text (c : cell num) s : to_numeric_cell parse c ≠ CStr s.
Proof. destruct c as [s'|x|]; simpl; [destruct (parse s')|..]; done. Qed.

Lemma isna_grade j (r : row) :
  isna (to_numeric_cell parse (r !!! j)) = true ↔ grade parse j r = None.
Proof.
  unfold grade. pose proof (to_numeric_cell_no_text (r !!! j)) as Hno.
  destruct (to_numeric_cell parse (r !!! j)) as [s|x|]; simpl; [|done|done].
  by destruct (Hno s).
Qed.

Lemma accepts_lookup (df : DataFrame num) j n :
  accepts df j n → ∃ c, columns df !! j = Some c ∧ is_cgpa_name c.
Proof.
  intros (Hfind & _). unfold find_cgpa_col in Hfind.
  apply find_cgpa_col_from_Some in Hfind as (k & c & -> & Hc & Hname & _). eauto.
Qed.

(** X2. A successful run logs the detected layout, and after it the warning
    exactly when some row has a grade that is missing or not numeric; it
    logs nothing else. *)
Theorem warning_iff_missing_grade (w : world num) (cgpa_idx n : nat) :
  wf (df_obj w) → argsort_permutes argsort → accepts (df_obj w) cgpa_idx n →
  ∃ cgpa_col tail,
    columns (df_obj w) !! cgpa_idx = Some cgpa_col ∧
    log (run w).1
    = log w ++ InfoDetected cgpa_idx cgpa_col
                 (drop (cgpa_idx + 1) (columns (df_obj w))) n :: tail ∧
    (tail = [] ∨ tail = [WarningNaN]) ∧
    (tail = [WarningNaN] ↔ ∃ r, r ∈ rows (df_obj w) ∧ grade parse cgpa_idx r = None).
Proof.
  intros Hwf Hperm Hacc.
  destruct (run_accepted num_ltb parse argsort w cgpa_idx n Hwf Hperm Hacc) as (c & Hc & ->).
  destruct Hacc as (_ & -> & _). destruct Hwf as [_ Hrect].
  exists c. eexists. split; [done|]. split; [reflexivity|].
  assert (Hex : existsb isna ((λ r : row, r !!! cgpa_idx)
                              <$> rows (coerced parse (df_obj w) cgpa_idx)) = true
                ↔ ∃ r, r ∈ rows (df_obj w) ∧ grade parse cgpa_idx r = None).
  { rewrite existsb_exists. simpl. rewrite <- list_fmap_compose. split.
    - intros (v & Hin & Hv). apply list_elem_of_In, list_elem_of_fmap in Hin as (r & -> & Hr).
      exists r. split; [done|]. simpl in Hv.
      rewrite Forall_forall in Hrect. specialize (Hrect r Hr).
      rewrite coerce_grade_at in Hv by (apply lookup_lt_Some in Hc; lia).
      by apply isna_grade.
    - intros (r & Hr & Hg). exists (coerce_grade parse cgpa_idx r !!! cgpa_idx). split.
      + apply list_elem_of_In, list_elem_of_fmap. by exists r.
      + rewrite Forall_forall in Hrect. specialize (Hrect r Hr).
        rewrite coerce_grade_at by (apply lookup_lt_Some in Hc; lia).
        by apply isna_grade. }
  destruct (existsb isna _).
  - split; [by right|]. split; [intros _; by apply Hex|done].
  - split; [by left|]. split; [done|]. intros Hr%Hex. done.
Qed.

(** X3. After a successful run the caller's grade column holds numbers and NaN
    only, so that coercing it once more would change nothing. *)
Theorem grade_column_numeric_after_call (w : world num) (cgpa_idx n : nat) :
  wf (df_obj w) → argsort_permutes argsort → accepts (df_obj w) cgpa_idx n →
  ∃ cgpa_col series,
    columns (df_obj w) !! cgpa_idx = Some cgpa_col ∧
    getitem (df_obj (run w).1) cgpa_col = Ok series ∧
    length series = length (rows (df_obj w)) ∧
    Forall (λ v, ∀ s, v ≠ CStr s) series ∧
    to_numeric parse series = series.
Proof.
  intros Hwf Hperm Hacc.
  destruct (run_accepted num_ltb parse argsort w cgpa_idx n Hwf Hperm Hacc) as (c & Hc & ->).
  pose proof (wf_coerced parse (df_obj w) cgpa_idx Hwf) as [Hnd' Hrect'].
  destruct Hwf as [Hnd Hrect].
  exists c. eexists. split; [done|]. cbn [fst df_obj].
  split; [by apply (getitem_col _ cgpa_idx)|].
  assert (Hcol : (λ r : row, r !!! cgpa_idx) <$> rows (coerced parse (df_obj w) cgpa_idx)
                 = (λ r : row, to_numeric_cell parse (r !!! cgpa_idx)) <$> rows (df_obj w)).
  { simpl. rewrite <- list_fmap_compose. apply Forall_fmap_ext_1.
    eapply Forall_impl; [exact Hrect|]. intros r Hr. simpl in *.
    apply coerce_grade_at. apply lookup_lt_Some in Hc. lia. }
  rewrite Hcol. split_and!.
  - by rewrite length_fmap.
  - apply Forall_fmap, Forall_forall. intros r _ s. apply to_numeric_cell_no_text.
  - unfold to_numeric. rewrite <- list_fmap_compose. apply list_fmap_ext.
    intros i r _. simpl. apply to_numeric_cell_idemp.
Qed.

Lemma assigned_faculty_not_cgpa : ¬ is_cgpa_name "AssignedFaculty".
Proof. unfold is_cgpa_name. rewrite <- contains_spec. by vm_compute. Qed.


Lemma sum_ge_length (T : list (cell num * nat)) :
  Forall (λ kc, 1 ≤ kc.2) T → length T ≤ sum_list_with snd T.
Proof. induction 1 as [|[k c] T Hc _ IH]; simpl in *; lia. Qed.

(** X5. In a successful run every count of the count table is at least 1 and at
    most the number of rows, the table has at most as many rows as the
    upload, and it is empty exactly when the upload has no data rows. *)
Theorem count_table_bounds (w : world num) (cgpa_idx n : nat) :
  wf (df_obj w) → argsort_permutes argsort → accepts (df_obj w) cgpa_idx n →
  ∃ w' allocation_df fac_count,
    run w = (w', Ok (allocation_df, fac_count)) ∧
    Forall (λ kc, 1 ≤ kc.2 ≤ length (rows (df_obj w))) (count_rows fac_count) ∧
    length (count_rows fac_count) ≤ length (rows (df_obj w)) ∧
    (count_rows fac_count = [] ↔ rows (df_obj w) = []).
Proof.
  intros Hwf Hperm Hacc.
  destruct (run_accepted num_ltb parse argsort w cgpa_idx n Hwf Hperm Hacc) as (c & _ & ->).
  eexists _, _, _. split; [done|]. unfold fac_count_of. cbn [count_rows].
  set (assigned := assigned_of _ _ _).
  assert (Hlen : length assigned = length (rows (df_obj w))).
  { unfold assigned, assigned_of. by rewrite length_imap, length_ranked. }
  pose proof (value_counts_perm argsort assigned Hperm) as HP.
  destruct (value_count_counts assigned) as [_ Hinv].
  pose proof (value_count_sum assigned) as Hsum. rewrite <- HP, Hlen in Hsum.
  assert (Hpos : Forall (λ kc : cell num * nat, 1 ≤ kc.2) (value_counts argsort assigned)).
  { rewrite HP. apply Forall_forall. intros [k c'] [_ ?]%Hinv. simpl. lia. }
  split_and!.
  - apply Forall_forall. intros kc Hkc. split.
    + rewrite Forall_forall in Hpos. by apply Hpos.
    + rewrite <- Hsum. by apply (sum_list_with_in _ snd).
  - rewrite <- Hsum. by apply sum_ge_length.
  - split.
    + intros Hnil. rewrite Hnil in Hsum. simpl in Hsum. by apply length_zero_iff_nil.
    + intros Hrows. apply length_zero_iff_nil.
      pose proof (sum_ge_length _ Hpos). rewrite Hrows in Hsum. simpl in Hsum. lia.
Qed.

Lemma strongly_sorted_omap_2 {A B} (f : A → option B) (R : relation B) (l : list A) :
  StronglySorted (λ a b, ∀ x y, f a = Some x → f b = Some y → R x y) l →
  StronglySorted R (omap f l).
Proof.
  induction 1 as [|a l Hl IH Ha]; [constructor|]. csimpl.
  destruct (f a) as [x|] eqn:Hfa; [|done]. constructor; [done|].
  apply Forall_forall. intros y (b & Hb & Hfb)%list_elem_of_omap.
  rewrite Forall_forall in Ha. by apply (Ha b Hb).
Qed.

Lemma fmap_present {A B} (f : A → option B) (l : list A) :
  Forall (λ a, is_Some (f a)) l → f <$> l = Some <$> omap f l.
Proof.
  induction 1 as [|a l [x Hx] _ IH]; [done|]. csimpl. rewrite Hx. csimpl. by rewrite IH.
Qed.

Lemma fmap_missing {A B} (f : A → option B) (l : list A) :
  f <$> filter (λ a, f a = None) l = replicate (length (filter (λ a, f a = None) l)) None.
Proof.
  induction l as [|a l IH]; [done|]. rewrite filter_cons.
  destruct (decide (f a = None)) as [Ha|Ha]; [|done]. csimpl. by rewrite Ha, IH.
Qed.

Lemma filter_missing_coerced j (rs : list row) :
  Forall (λ r, j < length r) rs →
  length (filter (λ r, grade parse j r = None) (coerce_grade parse j <$> rs))
  = length (filter (λ r, grade parse j r = None) rs).
Proof.
  induction 1 as [|r rs Hr _ IH]; [done|]. csimpl. rewrite !filter_cons.
  rewrite grade_coerce_grade by done.
  destruct (decide (grade parse j r = None)); simpl; by rewrite IH.
Qed.

(** X1. In a successful run, reading the grades down the allocation table, the
    present grades come first and none is greater than an earlier one; the
    missing grades follow, one for each row of the upload without a numeric
    grade, and those rows keep their upload order. *)
Theorem allocation_rows_by_grade (w : world num) (cgpa_idx n : nat) :
  wf (df_obj w) → argsort_contract argsort → strict_weak num_ltb →
  accepts (df_obj w) cgpa_idx n →
  ∃ w' allocation_df fac_count xs,
    run w = (w', Ok (allocation_df, fac_count)) ∧
    grade parse cgpa_idx <$> rows allocation_df
    = (Some <$> xs)
      ++ replicate (length (filter (λ r, grade parse cgpa_idx r = None) (rows (df_obj w))))
                   None ∧
    StronglySorted (λ x y, num_ltb x y = false) xs ∧
    drop (length xs) (ranked_rows (df_obj w) cgpa_idx)
    = filter (λ r, grade parse cgpa_idx r = None)
             (coerce_grade parse cgpa_idx <$> rows (df_obj w)).
Proof.
  intros Hwf Hc Hsw Hacc. pose proof (argsort_perm _ Hc) as Hperm.
  destruct (run_accepted num_ltb parse argsort w cgpa_idx n Hwf Hperm Hacc) as (c & Hcol & ->).
  destruct (accepts_lookup _ _ _ Hacc) as (c' & Hc' & Hname).
  assert (c' = c) as -> by congruence.
  pose proof (lookup_lt_Some _ _ _ Hcol) as Hj.
  destruct (ranked_descending_missing_last num_ltb parse argsort (df_obj w) cgpa_idx
              Hc Hsw Hwf Hj) as (present & Hranked & Hpresent & Hsorted).
  pose proof (ranked_rect num_ltb parse argsort Hperm (df_obj w) cgpa_idx Hwf) as Hrr.
  pose proof Hwf as [Hnd Hrect].
  eexists _, _, _, (omap (grade parse cgpa_idx) present). split; [done|].
  assert (Hgrades : grade parse cgpa_idx
                      <$> rows (allocation_of num_ltb parse argsort (df_obj w) cgpa_idx)
                    = grade parse cgpa_idx <$> ranked_rows (df_obj w) cgpa_idx).
  { unfold allocation_of, set_column. cbn [columns rows].
    set (rs := ranked_rows (df_obj w) cgpa_idx) in *.
    set (vals := assigned_of _ _ rs).
    assert (Hvals : length vals = length rs)
      by (unfold vals, assigned_of; by rewrite length_imap).
    destruct (list_find _ _) as [[a y]|] eqn:Hlf; cbn [rows].
    - apply list_find_Some in Hlf as (Ha & -> & _).
      assert (a ≠ cgpa_idx).
      { intros ->. rewrite Hcol in Ha. injection Ha as ->.
        by apply assigned_faculty_not_cgpa. }
      clearbody vals. clear Hranked. revert vals Hvals.
      induction Hrr as [|r rs' Hr _ IH]; intros [|v vals] Hvals; simpl in *; try done.
      f_equal; [|apply IH; lia].
      unfold grade. by rewrite list_lookup_total_insert_ne.
    - clearbody vals. clear Hranked. revert vals Hvals.
      induction Hrr as [|r rs' Hr _ IH]; intros [|v vals] Hvals; simpl in *; try done.
      f_equal; [|apply IH; lia].
      unfold grade. by rewrite lookup_total_app_l by lia. }
  rewrite Hgrades, Hranked, fmap_app, fmap_missing, (fmap_present _ present) by done.
  rewrite filter_missing_coerced.
  2: { eapply Forall_impl; [exact Hrect|]. simpl. intros r ->. done. }
  split_and!; [done| |].
  - by apply strongly_sorted_omap_2.
  - rewrite drop_app_length'; [done|].
    apply (f_equal length) in Hgrades. rewrite !length_fmap in Hgrades.
    clear -Hpresent. induction Hpresent as [|r l [x Hx] _ IH]; [done|].
    csimpl. rewrite Hx. simpl. by rewrite IH.
Qed.

End EngineMore.

(** ** The logger *)

(** X8. Running the set-up again, any number of times, leaves the logger as the
    first run left it: no handler is attached twice. A logger that starts
    without handlers ends with the file handler and the console handler. *)
Theorem logger_setup_rerun (L : Logger) (k : nat) :
  Nat.iter (S k) logger_setup L = logger_setup L ∧
  lg_level (logger_setup L) = DEBUG ∧
  (handlers L = [] → handlers (logger_setup L) = [file_handler; console_handler]) ∧
  (handlers L ≠ [] → handlers (logger_setup L) = handlers L).
Proof.
  assert (Hidem : ∀ L', logger_setup (logger_setup L') = logger_setup L').
  { intros [lv [|h hs]]; reflexivity. }
  split_and!.
  - induction k as [|k IH]; [done|]. rewrite Nat.iter_succ, IH. apply Hidem.
  - by destruct L as [lv [|h hs]].
  - destruct L as [lv hs]. simpl. by intros ->.
  - by destruct L as [lv [|h hs]].
Qed.

Lemma call_handlers_after_setup {R} (L : Logger) (lv : level) (r : R) :
  handlers L = [] →
  call_handlers (logger_setup L) lv r
  = (FileStream "allocation_app.log", r) ::
    (if decide (lv = DEBUG) then [] else [(ConsoleStream, r)]).
Proof.
  destruct L as [l0 hs]. simpl. intros ->. by destruct lv.
Qed.

(** X9. Once the script has set the logger up from a state without handlers,
    the logger's own two handlers write every record the application logs
    exactly once to the file [allocation_app.log] and exactly once to the
    console, in the order logged: all its records are of level INFO or
    above. *)
Theorem app_records_reach_both_sinks (L : Logger) (rs : list app_record) :
  handlers L = [] →
  let writes := log_all (logger_setup L) record_level rs in
  written_to (FileStream "allocation_app.log") writes = rs ∧
  written_to ConsoleStream writes = rs.
Proof.
  intros HL writes. subst writes. unfold log_all, written_to.
  induction rs as [|r rs [IHf IHc]]; [done|].
  rewrite bind_cons, call_handlers_after_setup by done.
  assert (record_level r ≠ DEBUG) by (by destruct r as [[]|]).
  rewrite decide_False by done. cbn [app].
  split; rewrite !filter_cons; cbn [fst]; repeat case_decide; simplify_eq;
    csimpl; by rewrite ?IHf, ?IHc.
Qed.

Lemma logger_setup_rerun_witness :
  let L := {| lg_level := WARNING; handlers := [] |} in
  Nat.iter 4 logger_setup L = logger_setup L ∧
  lg_level (logger_setup L) = DEBUG ∧
  (handlers L = [] → handlers (logger_setup L) = [file_handler; console_handler]) ∧
  (handlers L ≠ [] → handlers (logger_setup L) = handlers L).
Proof. apply (logger_setup_rerun {| lg_level := WARNING; handlers := [] |} 3). Defined.

Lemma app_records_reach_both_sinks_witness :
  let rs := [EngineRecord (InfoDetected 1 "CGPA" ["Pref1"] 1); EngineRecord WarningNaN] in
  let writes := log_all (logger_setup {| lg_level := WARNING; handlers := [] |})
                        record_level rs in
  written_to (FileStream "allocation_app.log") writes = rs ∧
  written_to ConsoleStream writes = rs.
Proof.
  apply (app_records_reach_both_sinks {| lg_level := WARNING; handlers := [] |}).
  reflexivity.
Defined.

(** ** The page script *)

Lemma no_processing_error_from_engine (l : list log_entry) :
  filter (λ r, is_processing_error r = true) (EngineRecord <$> l) = [].
Proof.
  induction l as [|x l IH]; [done|]. csimpl. by rewrite filter_cons, decide_False.
Qed.

Section PageFacts.
Context {num : Type} `{!EqDecision num} `{!Numeric num}.
Context (num_ltb : num → num → bool) (parse : string → option num).
Context (argsort : argsort_fn).
Context (read_csv : string → string + DataFrame num).
Context (to_csv : DataFrame num → string) (counts_to_csv : CountFrame num → string).
Context (now : string) (str_other : exn → string).

Local Abbreviation script :=
  (page_script num_ltb parse argsort read_csv to_csv counts_to_csv now str_other).

(** How many elements of a page satisfy [f]. *)
Local Abbreviation count f P := (length (filter (λ e : st_event num, f e = true) P)).

(** X10. A script run never ends in an exception, and it ends in exactly one of
    three ways. Nothing uploaded: the prompt, and nothing logged. Success:
    one success notice, three tables, two download buttons, no error notice,
    no "Processing error" record. Failure, of [pd.read_csv] or of
    [allocate_students]: one error notice, the last element of the page,
    made from [str(e)], no success notice, no download button, and one
    "Processing error" record with that exception, the last record. *)
Theorem page_script_outcome (uploaded_file : option string) (handed : list app_record) :
  let out := script uploaded_file (new_run handed) in
  let P := page out.1 in
  out.2 = Done tt ∧
  ∃ new, records out.1 = handed ++ new ∧
    ((uploaded_file = None ∧ new = [] ∧
      P = page_top ++ [StInfo "Please upload an input CSV to start allocation."]) ∨
     (count is_success P = 1 ∧ count is_table P = 3 ∧ count is_download P = 2 ∧
      count is_error P = 0 ∧
      filter (λ r, is_processing_error r = true) new = []) ∨
     (∃ e, last P = Some (StError (error_notice (failure_str str_other e))) ∧
           count is_error P = 1 ∧ count is_success P = 0 ∧ count is_download P = 0 ∧
           count is_table P ≤ 1 ∧
           last new = Some (ProcessingError e) ∧
           filter (λ r, is_processing_error r = true) new = [ProcessingError e])).
Proof.
  intros out P. subst out P. unfold page_script, new_run.
  unfold mbind, Script_bind, show. cbn [records page app].
  destruct uploaded_file as [f|]; cbn [records page app fst snd].
  2: { split; [done|]. exists []. split; [by rewrite app_nil_r|]. left. done. }
  unfold try_script, process_upload, on_exception, pd_read_csv, call_allocate.
  unfold mbind, Script_bind, show, hand_to_logger. cbn [records page app].
  destruct (read_csv f) as [text|df]; cbn [records page app fst snd].
  { split; [done|]. eexists. split; [done|]. right. right.
    exists (ReadCsvError text). split_and!; try done. compute. lia. }
  destruct (allocate_students num_ltb parse argsort _) as [w [tables|e]];
    cbn [records page app fst snd].
  - split; [done|]. eexists. split; [done|]. right. left.
    split_and!; try done. apply no_processing_error_from_engine.
  - split; [done|]. eexists. split; [by rewrite <- app_assoc|]. right. right.
    exists (Raised e). split_and!; try done.
    + by rewrite last_snoc.
    + rewrite filter_app, no_processing_error_from_engine. done.
Qed.

(** X11. An accepted upload. The page shows the first 10 rows of the frame as
    [pd.read_csv] delivered it, the first 20 rows of the allocation table and
    the whole count table; the two downloads are the CSV texts of the whole
    tables, under file names with one and the same time stamp; the records
    are those of the successful call to [allocate_students]. *)
Theorem page_script_accepted (f : string) (df : DataFrame num) (cgpa_idx n : nat)
    (handed : list app_record) :
  read_csv f = inr df →
  wf df → argsort_permutes argsort → accepts df cgpa_idx n →
  ∃ cgpa_col,
    columns df !! cgpa_idx = Some cgpa_col ∧
    script (Some f) (new_run handed)
    = ({| records := handed ++ (EngineRecord <$> success_log parse df cgpa_idx cgpa_col);
          page := page_top ++
            [ StWrite "Preview of uploaded data (first 10 rows):";
              StDataframe (head 10 df);
              StInfo "Running allocation...";
              StSuccess "Allocation completed successfully.";
              StSubheader "Allocation Preview";
              StDataframe (head 20 (allocation_of num_ltb parse argsort df cgpa_idx));
              StSubheader "Faculty Allocation Counts";
              StCounts (fac_count_of num_ltb parse argsort df cgpa_idx);
              StDownloadButton "Download allocation CSV"
                (to_csv (allocation_of num_ltb parse argsort df cgpa_idx))
                ("output_btp_mtp_allocation_" +:+ now +:+ ".csv") "text/csv";
              StDownloadButton "Download faculty counts CSV"
                (counts_to_csv (fac_count_of num_ltb parse argsort df cgpa_idx))
                ("fac_preference_count_" +:+ now +:+ ".csv") "text/csv" ] |},
       Done tt).
Proof.
  intros Hread Hwf Hperm Hacc.
  destruct (run_accepted num_ltb parse argsort {| df_obj := df; log := [] |} cgpa_idx n
              Hwf Hperm Hacc) as (c & Hc & Hrun).
  exists c. split; [done|].
  unfold page_script, new_run, try_script, process_upload, pd_read_csv, call_allocate.
  unfold mbind, Script_bind, show. cbn [records page app].
  rewrite Hread. cbn [records page app]. rewrite Hrun. reflexivity.
Qed.

(** X12. An upload that [allocate_students] refuses. The page shows the preview
    of the upload and then the error notice with the message of the
    [ValueError]; no table of results and no download follows. The failure
    is logged twice, by [allocate_students] and by the script. *)
Theorem page_script_refused (f : string) (df : DataFrame num) (handed : list app_record) :
  read_csv f = inr df →
  (∀ cgpa_idx n, ¬ accepts df cgpa_idx n) →
  ∃ msg,
    (msg = msg_no_cgpa ∨ msg = msg_no_pref) ∧
    script (Some f) (new_run handed)
    = ({| records := handed ++
            [ EngineRecord (ExceptionDuringAllocation (ValueError msg));
              ProcessingError (Raised (ValueError msg)) ];
          page := page_top ++
            [ StWrite "Preview of uploaded data (first 10 rows):";
              StDataframe (head 10 df);
              StInfo "Running allocation...";
              StError (error_notice msg) ] |},
       Done tt).
Proof.
  intros Hread Hno.
  assert (∃ msg, (msg = msg_no_cgpa ∨ msg = msg_no_pref) ∧
            allocate_students num_ltb parse argsort {| df_obj := df; log := [] |}
            = ({| df_obj := df;
                  log := [ExceptionDuringAllocation (ValueError msg)] |},
               Raise (ValueError msg))) as (msg & Hmsg & Hrun).
  { destruct (accepts_cases df) as [Hnone|[(j & Hfind & Hdrop)|(j & n & Hacc)]].
    - exists msg_no_cgpa. split; [by left|]. by rewrite run_no_cgpa.
    - exists msg_no_pref. split; [by right|]. by rewrite (run_no_pref _ _ _ _ j).
    - by destruct (Hno j n). }
  exists msg. split; [done|].
  unfold page_script, new_run, try_script, process_upload, pd_read_csv, call_allocate.
  unfold mbind, Script_bind, show. cbn [records page app].
  rewrite Hread. cbn [records page app]. rewrite Hrun.
  cbn [records page app log fmap list_fmap].
  unfold on_exception, hand_to_logger, show, mbind, Script_bind.
  cbn [records page app failure_str]. by rewrite <- app_assoc.
Qed.

End PageFacts.

(** ** The further properties at example frames *)



Lemma accepts_df_text : accepts df_text 1 1.
Proof. by split_and!. Qed.

Lemma df_no_grade_refused cgpa_idx n : ¬ accepts df_no_grade cgpa_idx n.
Proof. by intros (Hfind & _). Qed.

Lemma warning_iff_missing_grade_witness :
  ∃ cgpa_col tail,
    columns df_text !! 1 = Some cgpa_col ∧
    log (allocate_students Qltb parse_decimal merge_argsort (fresh df_text)).1
    = [] ++ InfoDetected 1 cgpa_col (drop (1 + 1) (columns df_text)) 1 :: tail ∧
    (tail = [] ∨ tail = [WarningNaN]) ∧
    (tail = [WarningNaN] ↔ ∃ r, r ∈ rows df_text ∧ grade parse_decimal 1 r = None).
Proof.
  apply (warning_iff_missing_grade Qltb parse_decimal merge_argsort (fresh df_text) 1 1).
  - exact wf_df_text.
  - exact (argsort_perm _ merge_argsort_contract).
  - exact accepts_df_text.
Defined.

Lemma grade_column_numeric_after_call_witness :
  ∃ cgpa_col series,
    columns df_text !! 1 = Some cgpa_col ∧
    getitem (df_obj (allocate_students Qltb parse_decimal merge_argsort (fresh df_text)).1)
            cgpa_col = Ok series ∧
    length series = length (rows df_text) ∧
    Forall (λ v, ∀ s, v ≠ CStr s) series ∧
    to_numeric parse_decimal series = series.
Proof.
  apply (grade_column_numeric_after_call Qltb parse_decimal merge_argsort
           (fresh df_text) 1 1).
  - exact wf_df_text.
  - exact (argsort_perm _ merge_argsort_contract).
  - exact accepts_df_text.
Defined.


Lemma count_table_bounds_witness :
  ∃ w' allocation_df fac_count,
    allocate_students Qltb parse_decimal merge_argsort (fresh df_e2e)
    = (w', Ok (allocation_df, fac_count)) ∧
    Forall (λ kc, 1 ≤ kc.2 ≤ length (rows df_e2e)) (count_rows fac_count) ∧
    length (count_rows fac_count) ≤ length (rows df_e2e) ∧
    (count_rows fac_count = [] ↔ rows df_e2e = []).
Proof.
  apply (count_table_bounds Qltb parse_decimal merge_argsort (fresh df_e2e) 1 2).
  - exact wf_df_e2e.
  - exact (argsort_perm _ merge_argsort_contract).
  - exact accepts_df_e2e.
Defined.

Lemma allocation_rows_by_grade_witness :
  ∃ w' allocation_df fac_count xs,
    allocate_students Qltb parse_decimal merge_argsort (fresh df_text)
    = (w', Ok (allocation_df, fac_count)) ∧
    grade parse_decimal 1 <$> rows allocation_df
    = (Some <$> xs)
      ++ replicate (length (filter (λ r, grade parse_decimal 1 r = None) (rows df_text)))
                   None ∧
    StronglySorted (λ x y, Qltb x y = false) xs ∧
    drop (length xs) (ranked Qltb parse_decimal merge_argsort df_text 1)
    = filter (λ r, grade parse_decimal 1 r = None)
             (coerce_grade parse_decimal 1 <$> rows df_text).
Proof.
  apply (allocation_rows_by_grade Qltb parse_decimal merge_argsort (fresh df_text) 1 1).
  - exact wf_df_text.
  - exact merge_argsort_contract.
  - exact strict_weak_Q.
  - exact accepts_df_text.
Defined.

Lemma page_script_accepted_witness :
  let read_csv := (λ _ : string, inr df_e2e) : string → string + DataFrame Q in
  let to_csv := (λ _ : DataFrame Q, "allocation") in
  let counts_to_csv := (λ _ : CountFrame Q, "counts") in
  let now := "20240101_093000" in
  ∃ cgpa_col,
    columns df_e2e !! 1 = Some cgpa_col ∧
    page_script Qltb parse_decimal merge_argsort read_csv to_csv counts_to_csv now
      (λ _, "") (Some "upload") (new_run [])
    = ({| records := [] ++ (EngineRecord <$> success_log parse_decimal df_e2e 1 cgpa_col);
          page := page_top ++
            [ StWrite "Preview of uploaded data (first 10 rows):";
              StDataframe (head 10 df_e2e);
              StInfo "Running allocation...";
              StSuccess "Allocation completed successfully.";
              StSubheader "Allocation Preview";
              StDataframe (head 20 (allocation_of Qltb parse_decimal merge_argsort df_e2e 1));
              StSubheader "Faculty Allocation Counts";
              StCounts (fac_count_of Qltb parse_decimal merge_argsort df_e2e 1);
              StDownloadButton "Download allocation CSV"
                (to_csv (allocation_of Qltb parse_decimal merge_argsort df_e2e 1))
                ("output_btp_mtp_allocation_" +:+ now +:+ ".csv") "text/csv";
              StDownloadButton "Download faculty counts CSV"
                (counts_to_csv (fac_count_of Qltb parse_decimal merge_argsort df_e2e 1))
                ("fac_preference_count_" +:+ now +:+ ".csv") "text/csv" ] |},
       Done tt).
Proof.
  intros read_csv to_csv counts_to_csv now.
  apply (page_script_accepted Qltb parse_decimal merge_argsort read_csv to_csv
           counts_to_csv now (λ _, "") "upload" df_e2e 1 2 []).
  - reflexivity.
  - exact wf_df_e2e.
  - exact (argsort_perm _ merge_argsort_contract).
  - exact accepts_df_e2e.
Defined.

Lemma page_script_refused_witness :
  let read_csv := (λ _ : string, inr df_no_grade) : string → string + DataFrame Q in
  ∃ msg,
    (msg = msg_no_cgpa ∨ msg = msg_no_pref) ∧
    page_script Qltb parse_decimal merge_argsort read_csv (λ _, "") (λ _, "")
      "20240101_093000" (λ _, "") (Some "upload") (new_run [])
    = ({| records := [] ++
            [ EngineRecord (ExceptionDuringAllocation (ValueError msg));
              ProcessingError (Raised (ValueError msg)) ];
          page := page_top ++
            [ StWrite "Preview of uploaded data (first 10 rows):";
              StDataframe (head 10 df_no_grade);
              StInfo "Running allocation...";
              StError (error_notice msg) ] |},
       Done tt).
Proof.
  intros read_csv.
  apply (page_script_refused Qltb parse_decimal merge_argsort read_csv (λ _, "")
           (λ _, "") "20240101_093000" (λ _, "") "upload" df_no_grade []).
  - reflexivity.
  - exact df_no_grade_refused.
Defined.
